(** * simple-chatbot: the sprite loader, the TalkingAnimation processor and
      the pipeline assembled by [main]

    A shallow embedding of [examples/simple-chatbot/bot.py].  The script is
    effectful Python: module-level code fills a list while opening files,
    a frame processor mutates a flag and pushes frames, and [main] calls
    into the pipeline framework inside an [async with] block.  All three
    are written in one small state-and-exception monad, so that the
    definitions below follow the statements of the script line by line. *)

From Stdlib Require Import List String Ascii NArith Lia.
From Stdlib Require Import Strings.Byte DecimalString.
From Stdlib Require Lists.Finite DecimalNat.
Import ListNotations.

Set Implicit Arguments.

(** ** Exceptions and the state monad *)

(** A Python exception: the class name and its message. *)
Inductive exn : Type :=
| Exception (cls : string) (msg : string).

(** What a statement does: it finishes with a value or it raises. *)
Inductive result (A : Type) : Type :=
| Ok (a : A)
| Raise (e : exn).

Arguments Ok {A} a.
Arguments Raise {A} e.

(** A computation over a mutable state [S].  The state is returned on both
    outcomes: whatever was written before an exception stays written. *)
Definition M (S A : Type) : Type := S -> result A * S.

Definition ret {S A} (a : A) : M S A := fun s => (Ok a, s).

Definition bind {S A B} (c : M S A) (k : A -> M S B) : M S B :=
  fun s =>
    match c s with
    | (Ok a, s') => k a s'
    | (Raise e, s') => (Raise e, s')
    end.

Definition raise {S A} (e : exn) : M S A := fun s => (Raise e, s).
Definition get {S} : M S S := fun s => (Ok s, s).
Definition put {S} (s : S) : M S unit := fun _ => (Ok tt, s).
Definition modify {S} (f : S -> S) : M S unit := fun s => (Ok tt, f s).

(** Lifts the outcome of a call that does not touch the state. *)
Definition lift {S A} (r : result A) : M S A := fun s => (r, s).

Declare Scope py_scope.
Delimit Scope py_scope with py.
Notation "x <- c ;; k" := (bind c (fun x => k))
  (at level 100, c at next level, right associativity) : py_scope.
Notation "c ;; k" := (bind c (fun _ => k))
  (at level 100, right associativity) : py_scope.
Local Open Scope py_scope.

(** [for x in xs: body x]. *)
Fixpoint for_each {S A} (xs : list A) (body : A -> M S unit) : M S unit :=
  match xs with
  | [] => ret tt
  | x :: xs' => body x ;; for_each xs' body
  end.

(** [with enter as r: body r], for a context manager whose [__exit__]
    returns [None]: the exit runs on both outcomes of the body and never
    swallows the body's exception; an exception of the exit itself replaces
    it. *)
Definition with_ {S R A} (enter : M S R) (exit : R -> M S unit)
    (body : R -> M S A) : M S A :=
  fun s =>
    match enter s with
    | (Raise e, s1) => (Raise e, s1)
    | (Ok r, s1) =>
        match body r s1 with
        | (Ok a, s2) =>
            match exit r s2 with
            | (Ok _, s3) => (Ok a, s3)
            | (Raise e', s3) => (Raise e', s3)
            end
        | (Raise e, s2) =>
            match exit r s2 with
            | (Ok _, s3) => (Raise e, s3)
            | (Raise e', s3) => (Raise e', s3)
            end
        end
    end.

(** [range(a, b)]. *)
Definition range (a b : nat) : list nat := seq a (b - a).

(** ** Frames of the pipeline framework

    The frame classes the script imports.  A constructor stands for "an
    instance of this class", which is what [isinstance] tests; every other
    frame class of the framework is an [OtherFrame]. *)

Record ImageRawFrame : Type := mkImageRawFrame {
  image : list byte;
  size : nat * nat;
  format : option string
}.

Inductive Frame : Type :=
| AudioRawFrame (audio : list byte) (sample_rate num_channels : N)
| ImageRaw (f : ImageRawFrame)
| SpriteFrame (images : list ImageRawFrame)
| TTSStoppedFrame
| LLMMessagesFrame (messages : list (string * string))
| OtherFrame (class_name : string) (id : nat).

Inductive FrameDirection : Type := DOWNSTREAM | UPSTREAM.

(** [isinstance(frame, AudioRawFrame)] *)
Definition is_AudioRawFrame (frame : Frame) : bool :=
  match frame with
  | AudioRawFrame _ _ _ => true
  | _ => false
  end.

(** [isinstance(frame, TTSStoppedFrame)] *)
Definition is_TTSStoppedFrame (frame : Frame) : bool :=
  match frame with
  | TTSStoppedFrame => true
  | _ => false
  end.

(** ** Module-level names read by the processor and by [main] *)

Module Globals.
Record t : Type := mk {
  sprites : list ImageRawFrame;
  quiet_frame : ImageRawFrame;
  talking_frame : Frame
}.
End Globals.
Import Globals.

(** ** TalkingAnimation *)

Module TalkingAnimation.

Section Processor.

(** The part of the object owned by the base class [FrameProcessor]:
    framework bookkeeping (interruption and metrics state), opaque to
    the script. *)
Variable Base : Type.

(** The processor object: the base-class part, the flag set by
    [__init__], and the frames pushed so far, oldest first, each with
    the direction it was pushed in. *)
Record t : Type := mk {
  base : Base;
  _is_talking : bool;
  pushed : list (Frame * FrameDirection)
}.

(** [FrameProcessor.__init__] and [FrameProcessor.process_frame]:
    framework code, taken as given.  The base method updates the
    bookkeeping of the base class; it does not know the flag and pushes
    no frame of its own. *)
Variable super_init : Base.
Variable super_process_frame : Frame -> FrameDirection -> Base -> Base.

(** [__init__]: [super().__init__()], then [self._is_talking = False]. *)
Definition __init__ : t :=
  {| base := super_init; _is_talking := false; pushed := [] |}.

(** [await super().process_frame(frame, direction)] *)
Definition super_call (frame : Frame) (direction : FrameDirection)
    : M t unit :=
  modify (fun self =>
    {| base := super_process_frame frame direction (base self);
       _is_talking := _is_talking self;
       pushed := pushed self |}).

(** [await self.push_frame(frame)]; the direction defaults to
    downstream. *)
Definition push_frame (frame : Frame) : M t unit :=
  modify (fun self =>
    {| base := base self;
       _is_talking := _is_talking self;
       pushed := pushed self ++ [(frame, DOWNSTREAM)] |}).

Definition get_is_talking : M t bool :=
  self <- get ;; ret (_is_talking self).

Definition set_is_talking (b : bool) : M t unit :=
  modify (fun self =>
    {| base := base self; _is_talking := b; pushed := pushed self |}).

Variable g : Globals.t.

Definition process_frame (frame : Frame) (direction : FrameDirection)
    : M t unit :=
  super_call frame direction ;;
  (if is_AudioRawFrame frame then
     talking <- get_is_talking ;;
     if negb talking then
       push_frame (talking_frame g) ;;
       set_is_talking true
     else ret tt
   else if is_TTSStoppedFrame frame then
     push_frame (ImageRaw (quiet_frame g)) ;;
     set_is_talking false
   else ret tt) ;;
  push_frame frame.

(** The frames pushed by one call, in order: what [pushed] gained. *)
Definition emitted (frame : Frame) (direction : FrameDirection)
    (self : t) : list (Frame * FrameDirection) :=
  skipn (List.length (pushed self))
        (pushed (snd (process_frame frame direction self))).

(** The object after one call: the base class has seen the frame, the
    flag is [b], and [out] was pushed on top of what was there. *)
Definition after (frame : Frame) (direction : FrameDirection)
    (self : t) (b : bool) (out : list (Frame * FrameDirection)) : t :=
  {| base := super_process_frame frame direction (base self);
     _is_talking := b;
     pushed := pushed self ++ out |}.

End Processor.

End TalkingAnimation.

(** ** Module-level code: loading the sprites *)

(** What the script uses of a PIL image returned by [Image.open]. *)
Module Image.
Record t : Type := mk {
  tobytes : result (list byte);
  size : nat * nat;
  format : option string
}.
End Image.

(** [str(i)] for a non-negative integer. *)
Definition str (i : nat) : string := NilEmpty.string_of_uint (Nat.to_uint i).

(** [s.endswith("/")] *)
Fixpoint endswith_sep (s : string) : bool :=
  match s with
  | EmptyString => false
  | String c EmptyString => Ascii.eqb c "/"
  | String _ rest => endswith_sep rest
  end.

(** [os.path.join(a, b)] of [posixpath]. *)
Definition os_path_join (a b : string) : string :=
  if String.prefix "/" b then b
  else if (String.eqb a "" || endswith_sep a)%bool then a ++ b
  else a ++ "/" ++ b.

Module Loader.

(** File operations in the order they happen: [Open p] when
    [Image.open(p)] is called, [Close p] when its [with] block is left. *)
Inductive io_event : Type :=
| Open (path : string)
| Close (path : string).

(** The module namespace while the loading code runs, and the file
    operations done so far. *)
Record state : Type := mk {
  sprites : list ImageRawFrame;
  io : list io_event
}.

(** [sprites = []], before any file is touched. *)
Definition initial : state := {| sprites := []; io := [] |}.

Definition log (ev : io_event) : M state unit :=
  modify (fun s => {| sprites := sprites s; io := io s ++ [ev] |}).

(** [sprites.append(x)] *)
Definition sprites_append (x : ImageRawFrame) : M state unit :=
  modify (fun s => {| sprites := sprites s ++ [x]; io := io s |}).

(** [sprites.extend(xs)] *)
Definition sprites_extend (xs : list ImageRawFrame) : M state unit :=
  modify (fun s => {| sprites := sprites s ++ xs; io := io s |}).

Definition get_sprites : M state (list ImageRawFrame) :=
  s <- get ;; ret (sprites s).

Section Load.

(** [os.path.dirname(__file__)] and the behaviour of [Image.open] on
    each path: what the machine the script runs on decides. *)
Variable script_dir : string.
Variable Image_open : string -> result Image.t.

(** [os.path.join(script_dir, f"assets/robot0{i}.png")] *)
Definition full_path (i : nat) : string :=
  os_path_join script_dir ("assets/robot0" ++ str i ++ ".png").

(** One round of the loop: the [with] block opens the file, the body
    appends a frame built from the image, the file is closed. *)
Definition load_one (i : nat) : M state unit :=
  let full_path := full_path i in
  with_ (log (Open full_path) ;; lift (Image_open full_path))
        (fun _ => log (Close full_path))
        (fun img =>
           bytes <- lift (Image.tobytes img) ;;
           sprites_append
             (mkImageRawFrame bytes (Image.size img) (Image.format img))).

(** [for i in range(1, 26): ...] *)
Definition load_sprites : M state unit :=
  for_each (range 1 26) load_one.

(** [sprites[0]] *)
Definition sprites_first : M state ImageRawFrame :=
  l <- get_sprites ;;
  match l with
  | x :: _ => ret x
  | [] => raise (Exception "IndexError" "list index out of range")
  end.

(** The module-level statements from [sprites = []] to
    [talking_frame = SpriteFrame(images=sprites)]. *)
Definition module_init : M state Globals.t :=
  load_sprites ;;
  l <- get_sprites ;;
  let flipped := rev l in
  sprites_extend flipped ;;
  quiet_frame <- sprites_first ;;
  sprites <- get_sprites ;;
  let talking_frame := SpriteFrame sprites in
  ret (Globals.mk sprites quiet_frame talking_frame).

(** The frame the loop body builds for index [i], when nothing
    raises. *)
Definition frame_of_file (i : nat) : result ImageRawFrame :=
  match Image_open (full_path i) with
  | Ok img =>
      match Image.tobytes img with
      | Ok bytes =>
          Ok (mkImageRawFrame bytes (Image.size img) (Image.format img))
      | Raise e => Raise e
      end
  | Raise e => Raise e
  end.

End Load.

(** The paths opened, in order. *)
Fixpoint opened (evs : list io_event) : list string :=
  match evs with
  | [] => []
  | Open p :: evs' => p :: opened evs'
  | Close _ :: evs' => opened evs'
  end.

End Loader.

(** ** [main]: assembling and running the pipeline *)

Module Main.

(** [DailyParams(...)] with the options the script sets. *)
Record DailyParams : Type := mkDailyParams {
  audio_out_enabled : bool;
  camera_out_enabled : bool;
  camera_out_width : nat;
  camera_out_height : nat;
  vad_enabled : bool;
  transcription_enabled : bool
}.

(** [DailyTransport(room_url, token, bot_name, params)] *)
Record DailyTransport : Type := mkDailyTransport {
  room_url : string;
  token : string;
  bot_name : string;
  params : DailyParams
}.

Section Program.

Variable Base : Type.
Variable super_init : Base.

(** The processors the script creates, each by what it was built
    from. *)
Inductive Processor : Type :=
| DailyInputTransport (transport : DailyTransport)
| DailyOutputTransport (transport : DailyTransport)
| LLMUserResponseAggregator
| LLMAssistantResponseAggregator
| OpenAILLMService (api_key : option string) (model : string)
| ElevenLabsTTSService (api_key : option string) (voice_id : string)
| TalkingAnimation (ta : TalkingAnimation.t Base).

(** The calls [main] makes into aiohttp and the framework, each of
    which may raise. *)
Inductive call : Type :=
| ClientSession_aenter
| ClientSession_aexit
| SileroVADAnalyzer_new
| DailyParams_new
| DailyTransport_new
| ElevenLabsTTSService_new
| OpenAILLMService_new
| LLMUserResponseAggregator_new
| LLMAssistantResponseAggregator_new
| TalkingAnimation_new
| transport_input
| transport_output
| Pipeline_new (processors : list Processor)
| PipelineParams_new (allow_interruptions : bool)
| PipelineTask_new
| task_queue_frame (frame : Frame)
| transport_event_handler (event : string)
| PipelineRunner_new
| runner_run.

(** The surroundings of one run: the process environment read by
    [os.getenv], and for each call the exception it raises, if any. *)
Variable environ : string -> option string.
Variable raises : call -> option exn.

(** The state threaded through [main] is the list of calls made so
    far, oldest first. *)
Definition ext (c : call) : M (list call) unit :=
  fun tr =>
    (match raises c with
     | None => Ok tt
     | Some e => Raise e
     end, tr ++ [c]).

(** A call that returns the object [v] when it does not raise. *)
Definition new {A} (c : call) (v : A) : M (list call) A :=
  ext c ;; ret v.

Variable g : Globals.t.

(** The block under [async with aiohttp.ClientSession() as session]. *)
Definition main_body (room_url token : string) (session : unit)
    : M (list call) unit :=
  ext SileroVADAnalyzer_new ;;
  daily_params <- new DailyParams_new
    {| audio_out_enabled := true;
       camera_out_enabled := true;
       camera_out_width := 1024;
       camera_out_height := 576;
       vad_enabled := true;
       transcription_enabled := true |} ;;
  transport <- new DailyTransport_new
    (mkDailyTransport room_url token "Chatbot" daily_params) ;;
  tts <- new ElevenLabsTTSService_new
    (ElevenLabsTTSService (environ "ELEVENLABS_API_KEY")
                          "TX3LPaxmHKxFdv7VOQHJ") ;;
  llm <- new OpenAILLMService_new
    (OpenAILLMService (environ "OPENAI_API_KEY") "gpt-4o") ;;
  user_response <- new LLMUserResponseAggregator_new
    LLMUserResponseAggregator ;;
  assistant_response <- new LLMAssistantResponseAggregator_new
    LLMAssistantResponseAggregator ;;
  ta <- new TalkingAnimation_new
    (TalkingAnimation (TalkingAnimation.__init__ super_init)) ;;
  input <- new transport_input (DailyInputTransport transport) ;;
  output <- new transport_output (DailyOutputTransport transport) ;;
  let processors :=
    [input; user_response; llm; tts; ta; output; assistant_response] in
  ext (Pipeline_new processors) ;;
  ext (PipelineParams_new true) ;;
  ext PipelineTask_new ;;
  ext (task_queue_frame (ImageRaw (quiet_frame g))) ;;
  ext (transport_event_handler "on_first_participant_joined") ;;
  ext PipelineRunner_new ;;
  ext runner_run.

(** [main]: the session is entered, the block runs, the session is
    left; the session's [__aexit__] closes it and returns [None]. *)
Definition main (room_url token : string) : M (list call) unit :=
  with_ (ext ClientSession_aenter) (fun _ => ext ClientSession_aexit)
        (main_body room_url token).

(** The processor lists handed to [Pipeline(...)] during a run. *)
Fixpoint pipelines (tr : list call) : list (list Processor) :=
  match tr with
  | [] => []
  | Pipeline_new l :: tr' => l :: pipelines tr'
  | _ :: tr' => pipelines tr'
  end.

(** The calls of [main] in program order, the exit of the session
    block left out. *)
Definition main_calls (room_url token : string) : list call :=
  let transport :=
    mkDailyTransport room_url token "Chatbot"
      (mkDailyParams true true 1024 576 true true) in
  [ ClientSession_aenter; SileroVADAnalyzer_new; DailyParams_new;
    DailyTransport_new; ElevenLabsTTSService_new; OpenAILLMService_new;
    LLMUserResponseAggregator_new; LLMAssistantResponseAggregator_new;
    TalkingAnimation_new; transport_input; transport_output;
    Pipeline_new
      [ DailyInputTransport transport;
        LLMUserResponseAggregator;
        OpenAILLMService (environ "OPENAI_API_KEY") "gpt-4o";
        ElevenLabsTTSService (environ "ELEVENLABS_API_KEY")
                             "TX3LPaxmHKxFdv7VOQHJ";
        TalkingAnimation (TalkingAnimation.__init__ super_init);
        DailyOutputTransport transport;
        LLMAssistantResponseAggregator ];
    PipelineParams_new true; PipelineTask_new;
    task_queue_frame (ImageRaw (quiet_frame g));
    transport_event_handler "on_first_participant_joined";
    PipelineRunner_new; runner_run ].

(** Straight-line execution of a list of calls: each is made in turn
    until one raises. *)
Fixpoint run_calls (cs : list call) : M (list call) unit :=
  match cs with
  | [] => ret tt
  | c :: cs' => ext c ;; run_calls cs'
  end.

End Program.

End Main.

(** ** A sample machine

    Concrete surroundings on which the definitions above can be run: a
    script directory, an image behind every asset path, one missing
    asset, and a framework whose calls return or whose runner fails. *)

Module Sample.

Definition script_dir : string := "/srv/bot".

Definition robot : Image.t :=
  {| Image.tobytes := Ok [x00; x7f; xff];
     Image.size := (1, 1);
     Image.format := Some "PNG"%string |}.

(** Every asset is there. *)
Definition Image_open (path : string) : result Image.t := Ok robot.

(** [robot03.png] is missing. *)
Definition Image_open_missing (path : string) : result Image.t :=
  if String.eqb path "/srv/bot/assets/robot03.png"
  then Raise (Exception "FileNotFoundError" path)
  else Ok robot.

Definition keyframe : ImageRawFrame :=
  mkImageRawFrame [x00; x7f; xff] (1, 1) (Some "PNG"%string).

(** The module namespace after the loading code ran on this machine. *)
Definition loaded : result Globals.t * Loader.state :=
  Loader.module_init script_dir Image_open Loader.initial.

Definition globals : Globals.t :=
  Globals.mk (repeat keyframe 50) keyframe
             (SpriteFrame (repeat keyframe 50)).

(** A base class that keeps no state. *)
Definition super_process_frame (frame : Frame)
    (direction : FrameDirection) (b : unit) : unit := b.

Definition audio : Frame := AudioRawFrame [x01; x02] 16000%N 1%N.
Definition audio' : Frame := AudioRawFrame [x03; x04] 16000%N 1%N.
Definition text : Frame := OtherFrame "TextFrame" 7.

Definition environ (name : string) : option string := None.

(** Every call returns. *)
Definition all_return (c : Main.call unit) : option exn := None.

(** The pipeline run fails, everything before it returns. *)
Definition run_fails (c : Main.call unit) : option exn :=
  match c with
  | Main.runner_run _ => Some (Exception "RuntimeError" "transport lost")
  | _ => None
  end.

(** Only the exit of the session block fails. *)
Definition exit_fails (c : Main.call unit) : option exn :=
  match c with
  | Main.ClientSession_aexit _ =>
      Some (Exception "ClientError" "session close failed")
  | _ => None
  end.

(** [configure()] on this machine. *)
Definition configure : result (string * string) :=
  Ok ("https://example.daily.co/room", "token")%string.

End Sample.

(** ** The processor inside a running pipeline

    The pipeline hands the processor one frame after the other, each with
    the direction it travels in: one call of [process_frame] per frame. *)

Module Delivery.

Section Delivery.

Variable Base : Type.
Variable super_process_frame : Frame -> FrameDirection -> Base -> Base.
Variable g : Globals.t.

Definition process_frames (frames : list (Frame * FrameDirection))
    : M (TalkingAnimation.t Base) unit :=
  for_each frames
    (fun fd =>
       TalkingAnimation.process_frame super_process_frame g
         (fst fd) (snd fd)).

(** What the frames delivered in [frames] added to [pushed]. *)
Definition emitted (frames : list (Frame * FrameDirection))
    (self : TalkingAnimation.t Base) : list (Frame * FrameDirection) :=
  skipn (List.length (TalkingAnimation.pushed self))
        (TalkingAnimation.pushed (snd (process_frames frames self))).

(** [forwards ins outs]: [outs] is [ins] sent on downstream in the same
    order, each frame at most preceded by one of the two sprite frames. *)
Inductive forwards
    : list (Frame * FrameDirection) -> list (Frame * FrameDirection) -> Prop :=
| forwards_nil : forwards [] []
| forwards_plain frame direction ins outs :
    forwards ins outs ->
    forwards ((frame, direction) :: ins) ((frame, DOWNSTREAM) :: outs)
| forwards_sprite frame direction sprite ins outs :
    sprite = talking_frame g \/ sprite = ImageRaw (quiet_frame g) ->
    forwards ins outs ->
    forwards ((frame, direction) :: ins)
             ((sprite, DOWNSTREAM) :: (frame, DOWNSTREAM) :: outs).

End Delivery.

End Delivery.

(** The paths closed, in order. *)
Fixpoint closed (evs : list Loader.io_event) : list string :=
  match evs with
  | [] => []
  | Loader.Open _ :: evs' => closed evs'
  | Loader.Close p :: evs' => p :: closed evs'
  end.

(** Whether a call returned. *)
Definition returned {A} (r : result A) : bool :=
  match r with
  | Ok _ => true
  | Raise _ => false
  end.

(** ** The handler of [on_first_participant_joined] *)

Module Handler.

(** [d[key]] on a dict with string keys, given by its items. *)
Fixpoint getitem (d : list (string * string)) (key : string)
    : result string :=
  match d with
  | [] => Raise (Exception "KeyError" key)
  | (k, v) :: d' => if String.eqb k key then Ok v else getitem d' key
  end.

(** The two calls the handler makes into the framework. *)
Inductive call : Type :=
| capture_participant_transcription (participant_id : string)
| task_queue_frames (frames : list Frame).

Section Handler.

Variable raises : call -> option exn.

(** The text of the system message: a literal of the script, taken as
    given. *)
Variable content : string.

(** [messages]: one message, of role [system]. *)
Definition messages : list (string * string) := [("system"%string, content)].

Definition ext (c : call) : M (list call) unit :=
  fun tr =>
    (match raises c with
     | None => Ok tt
     | Some e => Raise e
     end, tr ++ [c]).

Definition on_first_participant_joined
    (participant : list (string * string)) : M (list call) unit :=
  participant_id <- lift (getitem participant "id") ;;
  ext (capture_participant_transcription participant_id) ;;
  ext (task_queue_frames [LLMMessagesFrame messages]).

End Handler.

End Handler.

(** ** The script run as a program

    The module-level statements, then the block under
    [if __name__ == "__main__"]. *)

Module Script.

Section Script.

Variable Base : Type.
Variable super_init : Base.

(** [load_dotenv(override=True)], [logger.remove(0)] and [logger.add(...)],
    which come before the sprites: library calls, which return or raise. *)
Variable setup : result unit.
Variable script_dir : string.
Variable Image_open : string -> result Image.t.

(** [configure()] of the [runner] module: the room URL and the token. *)
Variable configure : result (string * string).
Variable environ : string -> option string.
Variable raises : Main.call Base -> option exn.

(** The outcome of the program, with the module namespace and the calls
    of [main] it got to. *)
Definition script
    : result unit * (Loader.state * list (Main.call Base)) :=
  match setup with
  | Raise e => (Raise e, (Loader.initial, []))
  | Ok _ =>
      match Loader.module_init script_dir Image_open Loader.initial with
      | (Raise e, st) => (Raise e, (st, []))
      | (Ok g, st) =>
          match configure with
          | Raise e => (Raise e, (st, []))
          | Ok (url, token) =>
              let (r, tr) :=
                Main.main super_init environ raises g url token [] in
              (r, (st, tr))
          end
      end
  end.

End Script.

End Script.

(** More of the sample machine. *)

Module Demo.

(** Only the bytes of [robot02.png] cannot be read. *)
Definition Image_open_truncated (path : string) : result Image.t :=
  if String.eqb path "/srv/bot/assets/robot02.png"
  then Ok {| Image.tobytes := Raise (Exception "OSError" "image file is truncated");
             Image.size := (1, 1);
             Image.format := Some "PNG"%string |}
  else Ok Sample.robot.

Definition frames : list (Frame * FrameDirection) :=
  [(Sample.text, UPSTREAM); (Sample.audio, DOWNSTREAM);
   (Sample.audio', DOWNSTREAM); (TTSStoppedFrame, DOWNSTREAM);
   (Sample.text, DOWNSTREAM)].

Definition utterance : list (Frame * FrameDirection) :=
  [(Sample.audio', DOWNSTREAM); (Sample.text, DOWNSTREAM);
   (Sample.audio, DOWNSTREAM)].

Definition participant : list (string * string) :=
  [("info", "{}"); ("id", "a1b2")]%string.

Definition all_return (c : Handler.call) : option exn := None.

Definition capture_fails (c : Handler.call) : option exn :=
  match c with
  | Handler.capture_participant_transcription _ =>
      Some (Exception "RuntimeError" "not joined")
  | _ => None
  end.

End Demo.

(** * Properties *)

(** ** The processor *)

Section TalkingAnimationFacts.

Import TalkingAnimation.

Variable Base : Type.
Variable spf : Frame -> FrameDirection -> Base -> Base.
Variable g : Globals.t.

Lemma skipn_own_length (A : Type) (l k : list A) :
  skipn (List.length l) (l ++ k) = k.
Proof. induction l as [| a l IH]; simpl; [reflexivity | exact IH]. Qed.

(** Every call returns normally, and its effect is fixed by the class of
    the frame and by the flag. *)
Lemma process_frame_run frame direction (self : t Base) :
  process_frame spf g frame direction self =
    (Ok tt,
     if is_AudioRawFrame frame then
       if _is_talking self then
         after spf frame direction self true [(frame, DOWNSTREAM)]
       else
         after spf frame direction self true
               [(talking_frame g, DOWNSTREAM); (frame, DOWNSTREAM)]
     else if is_TTSStoppedFrame frame then
       after spf frame direction self false
             [(ImageRaw (quiet_frame g), DOWNSTREAM); (frame, DOWNSTREAM)]
     else
       after spf frame direction self (_is_talking self)
             [(frame, DOWNSTREAM)]).
Proof.
  unfold process_frame, after, super_call, push_frame, get_is_talking,
    set_is_talking, bind, modify, get, ret.
  destruct (is_AudioRawFrame frame); simpl.
  - destruct (_is_talking self) eqn:E; simpl;
      rewrite <- ?app_assoc; reflexivity.
  - destruct (is_TTSStoppedFrame frame); simpl;
      rewrite <- ?app_assoc; reflexivity.
Qed.

Lemma emitted_after frame direction (self : t Base) b out :
  snd (process_frame spf g frame direction self)
    = after spf frame direction self b out ->
  emitted spf g frame direction self = out.
Proof.
  intros H. unfold emitted. rewrite H. simpl.
  apply skipn_own_length.
Qed.

Lemma audio_is_not_sprite frame images :
  is_AudioRawFrame frame = true -> frame <> SpriteFrame images.
Proof. intros H E. rewrite E in H. discriminate H. Qed.

(** C1: an AudioRawFrame received while [_is_talking] is false makes the
    processor push [talking_frame] and set [_is_talking] to true; an
    AudioRawFrame received while [_is_talking] is true pushes only the
    frame itself, so the sprite animation (a SpriteFrame, never an audio
    frame) is not pushed again. *)
Theorem audio_frame_starts_talking frame direction (self : t Base) :
  is_AudioRawFrame frame = true ->
  (_is_talking self = false ->
     process_frame spf g frame direction self =
       (Ok tt, after spf frame direction self true
                 [(talking_frame g, DOWNSTREAM); (frame, DOWNSTREAM)])
     /\ emitted spf g frame direction self =
          [(talking_frame g, DOWNSTREAM); (frame, DOWNSTREAM)])
  /\
  (_is_talking self = true ->
     process_frame spf g frame direction self =
       (Ok tt, after spf frame direction self true [(frame, DOWNSTREAM)])
     /\ emitted spf g frame direction self = [(frame, DOWNSTREAM)]
     /\ (forall images, talking_frame g = SpriteFrame images ->
           ~ In (talking_frame g)
                (map fst (emitted spf g frame direction self)))).
Proof.
  intros Haudio.
  pose proof (process_frame_run frame direction self) as Hrun.
  rewrite Haudio in Hrun.
  split; intros Hflag; rewrite Hflag in Hrun.
  - split; [exact Hrun |].
    eapply emitted_after. rewrite Hrun. reflexivity.
  - assert (Hem : emitted spf g frame direction self = [(frame, DOWNSTREAM)]).
    { eapply emitted_after. rewrite Hrun. reflexivity. }
    repeat split; [exact Hrun | exact Hem |].
    intros images Hsprite Hin. rewrite Hem in Hin. simpl in Hin.
    destruct Hin as [Heq | []].
    apply (@audio_is_not_sprite frame images Haudio).
    rewrite Heq. exact Hsprite.
Qed.

(** C2: every TTSStoppedFrame makes the processor push [quiet_frame] and
    set [_is_talking] to false, whatever the flag was. *)
Theorem tts_stopped_frame_goes_quiet frame direction (self : t Base) :
  is_TTSStoppedFrame frame = true ->
  process_frame spf g frame direction self =
    (Ok tt, after spf frame direction self false
              [(ImageRaw (quiet_frame g), DOWNSTREAM); (frame, DOWNSTREAM)])
  /\ In (ImageRaw (quiet_frame g), DOWNSTREAM)
        (emitted spf g frame direction self)
  /\ _is_talking (snd (process_frame spf g frame direction self)) = false.
Proof.
  intros Htts.
  pose proof (process_frame_run frame direction self) as Hrun.
  assert (Haudio : is_AudioRawFrame frame = false)
    by (destruct frame; simpl in *; congruence).
  rewrite Haudio, Htts in Hrun.
  split; [exact Hrun |]. split.
  - erewrite emitted_after by (rewrite Hrun; reflexivity).
    left. reflexivity.
  - rewrite Hrun. reflexivity.
Qed.

(** C3: whatever the frame and the direction it arrived from, the call
    pushes that same frame downstream, once and last: the frames pushed
    are an optional sprite frame ([talking_frame] or [quiet_frame])
    followed by the input frame. *)
Theorem input_frame_forwarded_last frame direction (self : t Base) :
  exists sprite_part,
    pushed (snd (process_frame spf g frame direction self)) =
      pushed self ++ sprite_part ++ [(frame, DOWNSTREAM)]
    /\ emitted spf g frame direction self =
         sprite_part ++ [(frame, DOWNSTREAM)]
    /\ (sprite_part = []
        \/ sprite_part = [(talking_frame g, DOWNSTREAM)]
        \/ sprite_part = [(ImageRaw (quiet_frame g), DOWNSTREAM)]).
Proof.
  pose proof (process_frame_run frame direction self) as Hrun.
  destruct (is_AudioRawFrame frame);
    [destruct (_is_talking self) | destruct (is_TTSStoppedFrame frame)].
  - exists []. repeat split; [rewrite Hrun; reflexivity | | now left].
    eapply emitted_after. rewrite Hrun. reflexivity.
  - exists [(talking_frame g, DOWNSTREAM)].
    repeat split; [rewrite Hrun; reflexivity | | now right; left].
    eapply emitted_after. rewrite Hrun. reflexivity.
  - exists [(ImageRaw (quiet_frame g), DOWNSTREAM)].
    repeat split; [rewrite Hrun; reflexivity | | now right; right].
    eapply emitted_after. rewrite Hrun. reflexivity.
  - exists []. repeat split; [rewrite Hrun; reflexivity | | now left].
    eapply emitted_after. rewrite Hrun. reflexivity.
Qed.

(** C8: an AudioRawFrame processed while [_is_talking] is true pushes
    exactly one frame, the input, and leaves the flag as it was; two
    AudioRawFrames processed in a row by a fresh processor push
    [talking_frame] exactly once, before the first of them. *)
Theorem audio_while_talking_idempotent super_init f1 d1 f2 d2
    (self : t Base) :
  is_AudioRawFrame f1 = true ->
  is_AudioRawFrame f2 = true ->
  (_is_talking self = true ->
     emitted spf g f1 d1 self = [(f1, DOWNSTREAM)]
     /\ _is_talking (snd (process_frame spf g f1 d1 self))
        = _is_talking self)
  /\ (process_frame spf g f1 d1 ;; process_frame spf g f2 d2)
       (__init__ super_init) =
       (Ok tt,
        {| base := spf f2 d2 (spf f1 d1 super_init);
           _is_talking := true;
           pushed := [(talking_frame g, DOWNSTREAM);
                      (f1, DOWNSTREAM); (f2, DOWNSTREAM)] |})
  /\ (forall images, talking_frame g = SpriteFrame images ->
        f1 <> talking_frame g /\ f2 <> talking_frame g).
Proof.
  intros H1 H2. split; [| split].
  - intros Hflag.
    pose proof (process_frame_run f1 d1 self) as Hrun.
    rewrite H1, Hflag in Hrun. split.
    + eapply emitted_after. rewrite Hrun. reflexivity.
    + rewrite Hrun, Hflag. reflexivity.
  - unfold bind. rewrite process_frame_run, H1. simpl.
    rewrite process_frame_run, H2. reflexivity.
  - intros images Hsprite. rewrite Hsprite.
    split; apply audio_is_not_sprite; assumption.
Qed.

(** C9: the quiet branch is not guarded by the flag: a TTSStoppedFrame
    received while [_is_talking] is already false pushes [quiet_frame]
    again, before the frame itself, and the flag stays false. *)
Theorem tts_stopped_while_quiet_pushes_again frame direction
    (self : t Base) :
  is_TTSStoppedFrame frame = true ->
  _is_talking self = false ->
  emitted spf g frame direction self =
    [(ImageRaw (quiet_frame g), DOWNSTREAM); (frame, DOWNSTREAM)]
  /\ _is_talking (snd (process_frame spf g frame direction self)) = false.
Proof.
  intros Htts _.
  pose proof (process_frame_run frame direction self) as Hrun.
  assert (Haudio : is_AudioRawFrame frame = false)
    by (destruct frame; simpl in *; congruence).
  rewrite Haudio, Htts in Hrun. split.
  - eapply emitted_after. rewrite Hrun. reflexivity.
  - rewrite Hrun. reflexivity.
Qed.

(** C10: a frame that is neither an AudioRawFrame nor a TTSStoppedFrame
    leaves [_is_talking] unchanged and makes the processor push exactly
    one frame, the input frame itself. *)
Theorem other_frame_only_forwarded frame direction (self : t Base) :
  is_AudioRawFrame frame = false ->
  is_TTSStoppedFrame frame = false ->
  process_frame spf g frame direction self =
    (Ok tt, after spf frame direction self (_is_talking self)
              [(frame, DOWNSTREAM)])
  /\ emitted spf g frame direction self = [(frame, DOWNSTREAM)]
  /\ _is_talking (snd (process_frame spf g frame direction self))
     = _is_talking self.
Proof.
  intros Haudio Htts.
  pose proof (process_frame_run frame direction self) as Hrun.
  rewrite Haudio, Htts in Hrun.
  split; [exact Hrun |]. split.
  - eapply emitted_after. rewrite Hrun. reflexivity.
  - rewrite Hrun. reflexivity.
Qed.

End TalkingAnimationFacts.

(** ** The sprite loader *)

Section LoaderFacts.

Import Loader.

Variable script_dir : string.
Variable Image_open : string -> result Image.t.

Lemma opened_app evs evs' : opened (evs ++ evs') = opened evs ++ opened evs'.
Proof.
  induction evs as [| [p | p] evs IH]; simpl; [reflexivity | | exact IH].
  rewrite IH. reflexivity.
Qed.

(** One round of the loop whose file loads. *)
Lemma load_one_ok i f s :
  frame_of_file script_dir Image_open i = Ok f ->
  load_one script_dir Image_open i s =
    (Ok tt,
     {| sprites := sprites s ++ [f];
        io := (io s ++ [Open (full_path script_dir i)])
                ++ [Close (full_path script_dir i)] |}).
Proof.
  unfold frame_of_file, load_one, with_, bind, log, lift, modify,
    sprites_append.
  destruct (Image_open (full_path script_dir i)) as [img | e];
    [| discriminate].
  destruct (Image.tobytes img) as [bytes | e]; [| discriminate].
  intros E. injection E as <-. reflexivity.
Qed.

(** One round of the loop whose file does not load: the exception leaves
    the round, the list is as it was, and the path was opened. *)
Lemma load_one_raise i e s :
  frame_of_file script_dir Image_open i = Raise e ->
  exists s',
    load_one script_dir Image_open i s = (Raise e, s')
    /\ sprites s' = sprites s
    /\ opened (io s') = opened (io s) ++ [full_path script_dir i].
Proof.
  unfold frame_of_file, load_one, with_, bind, log, lift, modify,
    sprites_append.
  destruct (Image_open (full_path script_dir i)) as [img | e0].
  - destruct (Image.tobytes img) as [bytes | e0]; [discriminate |].
    intros E. injection E as <-. eexists. split; [reflexivity |].
    simpl. split; [reflexivity |].
    rewrite !opened_app. simpl. rewrite app_nil_r. reflexivity.
  - intros E. injection E as <-. eexists. split; [reflexivity |].
    simpl. split; [reflexivity |].
    rewrite opened_app. reflexivity.
Qed.

(** The loop over any list of indices, from any state: it ends normally
    exactly when every round does, having appended one frame per index
    and opened one path per index, in order. *)
Lemma for_each_load_ok xs : forall fs s,
  map (frame_of_file script_dir Image_open) xs = map Ok fs ->
  exists s',
    for_each xs (load_one script_dir Image_open) s = (Ok tt, s')
    /\ sprites s' = sprites s ++ fs
    /\ opened (io s') = opened (io s) ++ map (full_path script_dir) xs.
Proof.
  induction xs as [| i xs IH]; intros fs s Hmap.
  - destruct fs; [| discriminate]. exists s.
    rewrite !app_nil_r. repeat split.
  - destruct fs as [| f fs]; [discriminate |].
    simpl in Hmap. injection Hmap as Hi Hrest.
    simpl. unfold bind. rewrite (@load_one_ok i f s Hi).
    destruct (IH fs
                {| sprites := sprites s ++ [f];
                   io := (io s ++ [Open (full_path script_dir i)])
                           ++ [Close (full_path script_dir i)] |} Hrest)
      as (s' & Hrun & Hsp & Hio).
    exists s'. split; [exact Hrun |]. simpl in Hsp, Hio. split.
    + rewrite Hsp, <- app_assoc. reflexivity.
    + rewrite Hio, !opened_app. simpl. rewrite app_nil_r, <- app_assoc.
      reflexivity.
Qed.

Lemma for_each_load_inv xs : forall s s',
  for_each xs (load_one script_dir Image_open) s = (Ok tt, s') ->
  exists fs, map (frame_of_file script_dir Image_open) xs = map Ok fs.
Proof.
  induction xs as [| i xs IH]; intros s s' Hrun.
  - exists []. reflexivity.
  - simpl in Hrun. unfold bind in Hrun.
    destruct (frame_of_file script_dir Image_open i) as [f | e] eqn:Hi.
    + rewrite (@load_one_ok i f s Hi) in Hrun.
      destruct (IH _ _ Hrun) as (fs & Hfs).
      exists (f :: fs). simpl. rewrite Hi, Hfs. reflexivity.
    + destruct (@load_one_raise i e s Hi) as (s1 & Hone & _).
      rewrite Hone in Hrun. discriminate.
Qed.

(** The loop stopped by the first index whose file does not load. *)
Lemma for_each_load_raise pre : forall k post fs e s,
  map (frame_of_file script_dir Image_open) pre = map Ok fs ->
  frame_of_file script_dir Image_open k = Raise e ->
  exists s',
    for_each (pre ++ k :: post) (load_one script_dir Image_open) s
      = (Raise e, s')
    /\ sprites s' = sprites s ++ fs
    /\ opened (io s')
       = opened (io s) ++ map (full_path script_dir) (pre ++ [k]).
Proof.
  induction pre as [| i pre IH]; intros k post fs e s Hmap Hk.
  - destruct fs; [| discriminate]. simpl. unfold bind.
    destruct (@load_one_raise k e s Hk) as (s' & Hone & Hsp & Hio).
    rewrite Hone. exists s'. rewrite app_nil_r. repeat split; assumption.
  - destruct fs as [| f fs]; [discriminate |].
    simpl in Hmap. injection Hmap as Hi Hrest.
    simpl. unfold bind. rewrite (@load_one_ok i f s Hi).
    destruct (IH k post fs e
                {| sprites := sprites s ++ [f];
                   io := (io s ++ [Open (full_path script_dir i)])
                           ++ [Close (full_path script_dir i)] |}
                Hrest Hk)
      as (s' & Hrun & Hsp & Hio).
    exists s'. split; [exact Hrun |]. simpl in Hsp, Hio. split.
    + rewrite Hsp, <- app_assoc. reflexivity.
    + rewrite Hio, !opened_app. simpl. rewrite app_nil_r, <- app_assoc.
      reflexivity.
Qed.

Lemma append_inj_l (p a b : string) :
  (p ++ a = p ++ b)%string -> a = b.
Proof.
  induction p as [| c p IH]; simpl; intros E; [exact E |].
  injection E as E. exact (IH E).
Qed.

(** Distinct indices of the loop name distinct files. *)
Lemma full_paths_distinct :
  NoDup (map (full_path script_dir) (range 1 26)).
Proof.
  assert (Hnames :
    NoDup (map (fun i => "assets/robot0" ++ str i ++ ".png")%string
               (range 1 26))).
  { assert (E : nodup string_dec
                  (map (fun i => "assets/robot0" ++ str i ++ ".png")%string
                       (range 1 26))
                = map (fun i => "assets/robot0" ++ str i ++ ".png")%string
                      (range 1 26))
      by (vm_compute; reflexivity).
    rewrite <- E. apply NoDup_nodup. }
  assert (Hjoin : exists p, forall i,
             In i (range 1 26) ->
             full_path script_dir i
             = (p ++ ("assets/robot0" ++ str i ++ ".png"))%string).
  { unfold full_path, os_path_join.
    destruct (String.eqb script_dir "" || endswith_sep script_dir)%bool.
    - exists script_dir. intros i _. reflexivity.
    - exists (script_dir ++ "/")%string. intros i _. simpl.
      clear. induction script_dir as [| c d IH]; simpl;
        [reflexivity | rewrite <- IH; reflexivity]. }
  destruct Hjoin as (p & Hp).
  rewrite (map_ext_in _ _ _ Hp), <- (map_map _ (String.append p)).
  apply Finite.Injective_map_NoDup; [| exact Hnames].
  intros a b. apply append_inj_l.
Qed.

(** What the names [quiet_frame] and [talking_frame] are bound to. *)
Lemma module_init_globals g st :
  module_init script_dir Image_open initial = (Ok g, st) ->
  Globals.sprites g = sprites st
  /\ talking_frame g = SpriteFrame (Globals.sprites g)
  /\ hd_error (Globals.sprites g) = Some (quiet_frame g).
Proof.
  unfold module_init, sprites_first, get_sprites, sprites_extend, bind,
    get, ret, modify, raise.
  destruct (load_sprites script_dir Image_open initial) as [[[] | e] s1];
    [| discriminate].
  simpl. destruct (sprites s1 ++ rev (sprites s1)) eqn:E;
    [discriminate |].
  intros H. injection H as <- <-. simpl. repeat split.
Qed.

(** The frames in the list are those of the files opened, one for one. *)
Lemma loaded_frames_of_paths xs : forall fs,
  map (frame_of_file script_dir Image_open) xs = map Ok fs ->
  Forall2
    (fun path frame =>
       exists img bytes,
         Image_open path = Ok img
         /\ Image.tobytes img = Ok bytes
         /\ frame = mkImageRawFrame bytes (Image.size img) (Image.format img))
    (map (full_path script_dir) xs) fs.
Proof.
  induction xs as [| i xs IH]; intros [| f fs] Hmap; try discriminate Hmap.
  - constructor.
  - cbn [map] in Hmap. injection Hmap as Hi Hrest.
    cbn [map]. constructor; [| exact (IH fs Hrest)].
    unfold frame_of_file in Hi.
    destruct (Image_open (full_path script_dir i)) as [img | e];
      [| discriminate Hi].
    destruct (Image.tobytes img) as [bytes | e] eqn:Hbytes;
      [| discriminate Hi].
    injection Hi as <-. exists img, bytes. repeat split. exact Hbytes.
Qed.

(** The paths of the loop, spelled out: the script's directory, a
    separator where [os.path.join] puts one, and the name of the asset. *)
Lemma full_paths_spelled_out :
  map (full_path script_dir) (range 1 26) =
    map (fun name =>
           (script_dir
              ++ (if (String.eqb script_dir "" || endswith_sep script_dir)%bool
                  then "" else "/")
              ++ name)%string)
        [
         "assets/robot01.png"; "assets/robot02.png"; "assets/robot03.png";
         "assets/robot04.png"; "assets/robot05.png"; "assets/robot06.png";
         "assets/robot07.png"; "assets/robot08.png"; "assets/robot09.png";
         "assets/robot010.png"; "assets/robot011.png"; "assets/robot012.png";
         "assets/robot013.png"; "assets/robot014.png"; "assets/robot015.png";
         "assets/robot016.png"; "assets/robot017.png"; "assets/robot018.png";
         "assets/robot019.png"; "assets/robot020.png"; "assets/robot021.png";
         "assets/robot022.png"; "assets/robot023.png"; "assets/robot024.png";
         "assets/robot025.png"
        ]%string.
Proof.
  unfold full_path, os_path_join.
  destruct (String.eqb script_dir "" || endswith_sep script_dir)%bool;
    reflexivity.
Qed.

(** C6: when the loading loop ends, it has opened exactly the 25 files
    [assets/robot01.png] to [assets/robot025.png] under the directory of
    the script, one per index from 1 to 25, each once and in index order,
    and the sprite list holds one frame per file, built from the image of
    that file, in the same order. *)
Theorem sprites_loaded_in_index_order st :
  load_sprites script_dir Image_open initial = (Ok tt, st) ->
  opened (io st)
    = map (fun name =>
             (script_dir
                ++ (if (String.eqb script_dir "" || endswith_sep script_dir)%bool
                    then "" else "/")
                ++ name)%string)
          [
         "assets/robot01.png"; "assets/robot02.png"; "assets/robot03.png";
         "assets/robot04.png"; "assets/robot05.png"; "assets/robot06.png";
         "assets/robot07.png"; "assets/robot08.png"; "assets/robot09.png";
         "assets/robot010.png"; "assets/robot011.png"; "assets/robot012.png";
         "assets/robot013.png"; "assets/robot014.png"; "assets/robot015.png";
         "assets/robot016.png"; "assets/robot017.png"; "assets/robot018.png";
         "assets/robot019.png"; "assets/robot020.png"; "assets/robot021.png";
         "assets/robot022.png"; "assets/robot023.png"; "assets/robot024.png";
         "assets/robot025.png"
          ]%string
  /\ Forall2
       (fun path frame =>
          exists img bytes,
            Image_open path = Ok img
            /\ Image.tobytes img = Ok bytes
            /\ frame
               = mkImageRawFrame bytes (Image.size img) (Image.format img))
       (opened (io st)) (sprites st)
  /\ opened (io st) = map (full_path script_dir) (seq 1 25)
  /\ List.length (opened (io st)) = 25
  /\ NoDup (opened (io st))
  /\ map (frame_of_file script_dir Image_open) (seq 1 25)
     = map Ok (sprites st)
  /\ List.length (sprites st) = 25.
Proof.
  intros Hrun. unfold load_sprites in Hrun.
  destruct (@for_each_load_inv _ _ _ Hrun) as (fs & Hfs).
  destruct (@for_each_load_ok _ fs initial Hfs) as (s' & Hrun' & Hsp & Hio).
  rewrite Hrun in Hrun'. injection Hrun' as <-.
  cbn [initial io sprites opened app] in Hsp, Hio. rewrite Hio, Hsp.
  assert (Hlen : List.length fs = 25).
  { apply (f_equal (@List.length _)) in Hfs.
    rewrite !length_map in Hfs. rewrite <- Hfs. reflexivity. }
  split; [exact full_paths_spelled_out |].
  split; [exact (@loaded_frames_of_paths _ _ Hfs) |].
  split; [reflexivity |].
  split; [rewrite length_map; reflexivity |].
  split; [exact full_paths_distinct |].
  split; [exact Hfs | exact Hlen].
Qed.

(** C5: when the module-level code ends, the sprite list is the list of
    the loaded keyframes followed by its reverse: for the 25 keyframes
    it has 50 elements and reads the same in both directions. *)
Theorem sprites_are_keyframes_and_reverse g st :
  module_init script_dir Image_open initial = (Ok g, st) ->
  exists st1,
    load_sprites script_dir Image_open initial = (Ok tt, st1)
    /\ Globals.sprites g = sprites st1 ++ rev (sprites st1)
    /\ sprites st = Globals.sprites g
    /\ List.length (sprites st1) = 25
    /\ List.length (Globals.sprites g) = 50
    /\ rev (Globals.sprites g) = Globals.sprites g.
Proof.
  intros Hinit.
  destruct (module_init_globals Hinit) as (Hsame & _ & _).
  revert Hinit.
  unfold module_init, sprites_first, get_sprites, sprites_extend, bind,
    get, ret, modify, raise.
  destruct (load_sprites script_dir Image_open initial)
    as [[[] | e] st1] eqn:Hload; [| discriminate].
  simpl. destruct (sprites st1 ++ rev (sprites st1)) eqn:E;
    [discriminate |].
  intros H. injection H as Hg Hst.
  exists st1. split; [reflexivity |].
  assert (Hlen : List.length (sprites st1) = 25).
  { unfold load_sprites in Hload.
    destruct (@for_each_load_inv _ _ _ Hload) as (fs & Hfs).
    destruct (@for_each_load_ok _ fs initial Hfs) as (s' & Hrun' & Hsp & _).
    rewrite Hload in Hrun'. injection Hrun' as <-.
    simpl in Hsp. rewrite Hsp.
    apply (f_equal (@List.length _)) in Hfs.
    rewrite !length_map in Hfs. rewrite <- Hfs. reflexivity. }
  assert (Hsp : Globals.sprites g
                = sprites st1 ++ rev (sprites st1)).
  { rewrite <- Hg. simpl. symmetry. exact E. }
  repeat split.
  - exact Hsp.
  - symmetry. exact Hsame.
  - exact Hlen.
  - rewrite Hsp, length_app, length_rev, Hlen. reflexivity.
  - rewrite Hsp, rev_app_distr, rev_involutive. reflexivity.
Qed.

End LoaderFacts.

(** ** The pipeline built and run by [main] *)

Section MainFacts.

Import Main.

Variable Base : Type.
Variable super_init : Base.
Variable environ : string -> option string.
Variable raises : call Base -> option exn.
Variable g : Globals.t.
Variables room_url token : string.

(** A call followed by the rest of the program: the rest runs only if
    the call does not raise. *)
Lemma ext_step (A : Type) c (k : unit -> M (list (call Base)) A) tr :
  bind (ext raises c) k tr =
    match raises c with
    | None => k tt (tr ++ [c])
    | Some e => (Raise e, tr ++ [c])
    end.
Proof. unfold bind, ext. destruct (raises c); reflexivity. Qed.

Lemma new_step (A B : Type) c (v : A)
    (k : A -> M (list (call Base)) B) tr :
  bind (new raises c v) k tr =
    match raises c with
    | None => k v (tr ++ [c])
    | Some e => (Raise e, tr ++ [c])
    end.
Proof. unfold new, bind, ext, ret. destruct (raises c); reflexivity. Qed.

Lemma run_calls_step c cs tr :
  run_calls raises (c :: cs) tr =
    match raises c with
    | None => run_calls raises cs (tr ++ [c])
    | Some e => (Raise e, tr ++ [c])
    end.
Proof. cbn [run_calls]. apply ext_step. Qed.

(** The block of [main] makes its calls one after the other: there is no
    branch and no handler in between. *)
Lemma main_body_run session tr :
  main_body super_init environ raises g room_url token session tr =
    run_calls raises
      (tl (main_calls super_init environ g room_url token)) tr.
Proof.
  unfold main_body, main_calls. cbn [tl].
  repeat (first [rewrite ext_step | rewrite new_step];
          rewrite run_calls_step;
          match goal with
          | |- context [raises ?c] => destruct (raises c)
          end; [reflexivity |]).
  rewrite run_calls_step. unfold ext, run_calls, ret.
  destruct (raises (runner_run Base)); reflexivity.
Qed.

Lemma run_calls_ok cs : forall tr,
  (forall c, In c cs -> raises c = None) ->
  run_calls raises cs tr = (Ok tt, tr ++ cs).
Proof.
  induction cs as [| c cs IH]; intros tr Hok.
  - rewrite app_nil_r. reflexivity.
  - rewrite run_calls_step, (Hok c (or_introl eq_refl)).
    rewrite IH by (intros c' Hin; apply Hok; right; exact Hin).
    rewrite <- app_assoc. reflexivity.
Qed.

Lemma run_calls_raise pre : forall c post e tr,
  (forall c', In c' pre -> raises c' = None) ->
  raises c = Some e ->
  run_calls raises (pre ++ c :: post) tr = (Raise e, tr ++ pre ++ [c]).
Proof.
  induction pre as [| c0 pre IH]; intros c post e tr Hok Hc.
  - cbn [app]. rewrite run_calls_step, Hc. reflexivity.
  - cbn [app]. rewrite run_calls_step, (Hok c0 (or_introl eq_refl)).
    rewrite (IH c post e) by
      (try exact Hc; intros c' Hin; apply Hok; right; exact Hin).
    rewrite <- app_assoc. reflexivity.
Qed.

Lemma run_calls_app pre : forall rest tr,
  (forall c, In c pre -> raises c = None) ->
  run_calls raises (pre ++ rest) tr = run_calls raises rest (tr ++ pre).
Proof.
  induction pre as [| c pre IH]; intros rest tr Hok.
  - rewrite app_nil_r. reflexivity.
  - cbn [app]. rewrite run_calls_step, (Hok c (or_introl eq_refl)).
    rewrite IH by (intros c' Hin; apply Hok; right; exact Hin).
    rewrite <- app_assoc. reflexivity.
Qed.

(** Whatever happens, the calls made are an initial part of the list. *)
Lemma run_calls_trace cs : forall tr,
  exists k, snd (run_calls raises cs tr) = tr ++ firstn k cs.
Proof.
  induction cs as [| c cs IH]; intros tr.
  - exists 0. rewrite app_nil_r. reflexivity.
  - rewrite run_calls_step. destruct (raises c) as [e |].
    + exists 1. reflexivity.
    + destruct (IH (tr ++ [c])) as (k & Hk). exists (S k).
      rewrite Hk, <- app_assoc. reflexivity.
Qed.

Lemma pipelines_app (tr tr' : list (call Base)) :
  pipelines (tr ++ tr') = pipelines tr ++ pipelines tr'.
Proof.
  induction tr as [| c tr IH]; [reflexivity |].
  destruct c; cbn [app pipelines]; rewrite ?IH; reflexivity.
Qed.

(** Leaving the session block adds the exit to the trace and nothing
    else. *)
Lemma main_trace :
  raises (ClientSession_aenter Base) = None ->
  snd (main super_init environ raises g room_url token []) =
    snd (run_calls raises
           (tl (main_calls super_init environ g room_url token))
           [ClientSession_aenter Base])
    ++ [ClientSession_aexit Base].
Proof.
  intros Henter. unfold main, with_.
  unfold ext at 1. rewrite Henter. cbn [app].
  rewrite main_body_run.
  destruct (run_calls raises _ _) as [[[] | e] tr2];
    unfold ext; destruct (raises (ClientSession_aexit Base)); reflexivity.
Qed.

(** C4: the list handed to [Pipeline] holds exactly seven processors, in
    this order: the transport input, the user-message aggregator, the
    LLM service, the TTS service, the TalkingAnimation processor, the
    transport output, the assistant-message aggregator.  The pipeline
    is constructed once, as soon as the eleven calls before it have
    returned. *)
Theorem pipeline_stages_in_order :
  (forall c,
     In c (firstn 11 (main_calls super_init environ g room_url token)) ->
     raises c = None) ->
  let transport :=
    mkDailyTransport room_url token "Chatbot"
      (mkDailyParams true true 1024 576 true true) in
  pipelines (snd (main super_init environ raises g room_url token [])) =
    [[ DailyInputTransport Base transport;
       LLMUserResponseAggregator Base;
       OpenAILLMService Base (environ "OPENAI_API_KEY") "gpt-4o";
       ElevenLabsTTSService Base (environ "ELEVENLABS_API_KEY")
                            "TX3LPaxmHKxFdv7VOQHJ";
       TalkingAnimation (TalkingAnimation.__init__ super_init);
       DailyOutputTransport Base transport;
       LLMAssistantResponseAggregator Base ]].
Proof.
  intros Hok transport.
  rewrite main_trace by (apply Hok; left; reflexivity).
  rewrite pipelines_app, app_nil_r.
  rewrite <- (firstn_skipn 10
                (tl (main_calls super_init environ g room_url token))).
  rewrite run_calls_app by (intros c Hin; apply Hok; right; exact Hin).
  unfold main_calls. cbn [tl firstn skipn app].
  rewrite run_calls_step.
  destruct (raises (Pipeline_new _)) as [e |]; [reflexivity |].
  match goal with
  | |- context [run_calls raises ?cs ?tr] =>
      destruct (run_calls_trace cs tr) as (k & Hk)
  end.
  rewrite Hk, pipelines_app.
  do 7 (destruct k as [| k]; [reflexivity |]). reflexivity.
Qed.

(** A call of [main] that raises ends [main] with an exception: nothing
    after it is called except the exit of the session block, and the
    exception leaves [main] unless that exit raises one of its own. *)
Lemma main_failure_propagates pre c post e :
  main_calls super_init environ g room_url token = pre ++ c :: post ->
  (forall c', In c' pre -> raises c' = None) ->
  raises c = Some e ->
  main super_init environ raises g room_url token [] =
    (Raise (match pre, raises (ClientSession_aexit Base) with
            | _ :: _, Some e' => e'
            | _, _ => e
            end),
     pre ++ c :: match pre with
                 | [] => []
                 | _ :: _ => [ClientSession_aexit Base]
                 end).
Proof.
  intros Hsplit Hok Hc.
  assert (Htl : tl (main_calls super_init environ g room_url token)
                = tl (pre ++ c :: post)) by (rewrite Hsplit; reflexivity).
  assert (Hhd : hd c (pre ++ c :: post) = ClientSession_aenter Base)
    by (rewrite <- Hsplit; reflexivity).
  unfold main, with_. unfold ext at 1.
  destruct pre as [| c0 pre]; cbn [app hd tl] in *.
  - subst c. rewrite Hc. reflexivity.
  - subst c0. rewrite (Hok _ (or_introl eq_refl)).
    rewrite main_body_run, Htl.
    erewrite run_calls_raise;
      [| intros c' Hin; apply Hok; right; exact Hin | exact Hc].
    unfold ext. cbn [app]. rewrite <- app_assoc. cbn [app].
    destruct (raises (ClientSession_aexit Base)); reflexivity.
Qed.

(** When every call of the block returns and the exit of the session
    raises, that exception leaves [main]: the [async with] is the last
    statement, and nothing follows it that could catch. *)
Lemma main_exit_failure_propagates e :
  (forall c, In c (main_calls super_init environ g room_url token) ->
             raises c = None) ->
  raises (ClientSession_aexit Base) = Some e ->
  main super_init environ raises g room_url token [] =
    (Raise e,
     main_calls super_init environ g room_url token
       ++ [ClientSession_aexit Base]).
Proof.
  intros Hok Hexit.
  unfold main, with_. unfold ext at 1.
  rewrite (Hok (ClientSession_aenter Base) (or_introl eq_refl)).
  rewrite main_body_run, run_calls_ok
    by (intros c Hin; apply Hok; right; exact Hin).
  unfold ext. rewrite Hexit. reflexivity.
Qed.

End MainFacts.

(** ** Failures *)

(** When the file of index [k] is the first that does not load, the
    exception leaves the module-level code: the frames of the indices
    before [k] are still in the list, nothing was appended after them, and
    no file beyond [k] was opened. *)
Lemma loader_failure_propagates script_dir Image_open pre k post fs e :
  range 1 26 = pre ++ k :: post ->
  map (Loader.frame_of_file script_dir Image_open) pre = map Ok fs ->
  Loader.frame_of_file script_dir Image_open k = Raise e ->
  exists st,
    Loader.module_init script_dir Image_open Loader.initial = (Raise e, st)
    /\ Loader.sprites st = fs
    /\ Loader.opened (Loader.io st)
       = map (Loader.full_path script_dir) (pre ++ [k]).
Proof.
  intros Hsplit Hpre Hk.
  destruct (@for_each_load_raise script_dir Image_open pre k post fs e
              Loader.initial Hpre Hk) as (st & Hrun & Hsp & Hio).
  exists st. unfold Loader.module_init, Loader.load_sprites, bind.
  rewrite Hsplit, Hrun. repeat split; assumption.
Qed.

(** The script hands on the exception of whichever of its steps raises
    first, the set-up calls, the loading of the sprites, [configure()] or
    [asyncio.run(main(url, token))], and runs none of the later steps. *)
Lemma script_failure_propagates Base (super_init : Base) setup script_dir
    Image_open configure environ raises :
  (forall e,
     setup = Raise e ->
     Script.script super_init setup script_dir Image_open configure
       environ raises
     = (Raise e, (Loader.initial, [])))
  /\ (forall u e st,
        setup = Ok u ->
        Loader.module_init script_dir Image_open Loader.initial
          = (Raise e, st) ->
        Script.script super_init setup script_dir Image_open configure
          environ raises
        = (Raise e, (st, [])))
  /\ (forall u g st e,
        setup = Ok u ->
        Loader.module_init script_dir Image_open Loader.initial
          = (Ok g, st) ->
        configure = Raise e ->
        Script.script super_init setup script_dir Image_open configure
          environ raises
        = (Raise e, (st, [])))
  /\ (forall u g st room_url token e tr,
        setup = Ok u ->
        Loader.module_init script_dir Image_open Loader.initial
          = (Ok g, st) ->
        configure = Ok (room_url, token) ->
        Main.main super_init environ raises g room_url token []
          = (Raise e, tr) ->
        Script.script super_init setup script_dir Image_open configure
          environ raises
        = (Raise e, (st, tr))).
Proof.
  unfold Script.script. repeat split.
  - intros e ->. reflexivity.
  - intros u e st -> ->. reflexivity.
  - intros u g st e -> -> ->. reflexivity.
  - intros u g st room_url token e tr -> -> -> ->. reflexivity.
Qed.

(** C7: the script catches nothing.  An exception raised while the sprites
    are loaded leaves the module-level code with the list as it was at
    that moment; an exception raised by the entry of the session, by a
    call of the framework or by the pipeline run leaves [main], after the
    exit of the session block and nothing else; an exception raised by
    the exit of the session block alone leaves [main] as well; and an
    exception that leaves the set-up calls, the module-level code,
    [configure()] or [main] is the outcome of the whole script, which runs
    nothing after it. *)
Theorem failures_propagate_unhandled :
  (forall script_dir Image_open pre k post fs e,
     range 1 26 = pre ++ k :: post ->
     map (Loader.frame_of_file script_dir Image_open) pre = map Ok fs ->
     Loader.frame_of_file script_dir Image_open k = Raise e ->
     exists st,
       Loader.module_init script_dir Image_open Loader.initial
         = (Raise e, st)
       /\ Loader.sprites st = fs
       /\ Loader.opened (Loader.io st)
          = map (Loader.full_path script_dir) (pre ++ [k]))
  /\
  (forall Base (super_init : Base) environ raises g room_url token
          pre c post e,
     Main.main_calls super_init environ g room_url token
       = pre ++ c :: post ->
     (forall c', In c' pre -> raises c' = None) ->
     raises c = Some e ->
     Main.main super_init environ raises g room_url token [] =
       (Raise (match pre, raises (Main.ClientSession_aexit Base) with
               | _ :: _, Some e' => e'
               | _, _ => e
               end),
        pre ++ c :: match pre with
                    | [] => []
                    | _ :: _ => [Main.ClientSession_aexit Base]
                    end))
  /\
  (forall Base (super_init : Base) environ raises g room_url token e,
     (forall c,
        In c (Main.main_calls super_init environ g room_url token) ->
        raises c = None) ->
     raises (Main.ClientSession_aexit Base) = Some e ->
     Main.main super_init environ raises g room_url token [] =
       (Raise e,
        Main.main_calls super_init environ g room_url token
          ++ [Main.ClientSession_aexit Base]))
  /\
  (forall Base (super_init : Base) setup script_dir Image_open configure
          environ raises,
     (forall e,
        setup = Raise e ->
        Script.script super_init setup script_dir Image_open configure
          environ raises
        = (Raise e, (Loader.initial, [])))
     /\ (forall u e st,
           setup = Ok u ->
           Loader.module_init script_dir Image_open Loader.initial
             = (Raise e, st) ->
           Script.script super_init setup script_dir Image_open configure
             environ raises
           = (Raise e, (st, [])))
     /\ (forall u g st e,
           setup = Ok u ->
           Loader.module_init script_dir Image_open Loader.initial
             = (Ok g, st) ->
           configure = Raise e ->
           Script.script super_init setup script_dir Image_open configure
             environ raises
           = (Raise e, (st, [])))
     /\ (forall u g st room_url token e tr,
           setup = Ok u ->
           Loader.module_init script_dir Image_open Loader.initial
             = (Ok g, st) ->
           configure = Ok (room_url, token) ->
           Main.main super_init environ raises g room_url token []
             = (Raise e, tr) ->
           Script.script super_init setup script_dir Image_open configure
             environ raises
           = (Raise e, (st, tr)))).
Proof.
  split; [| split; [| split]].
  - intros. eapply loader_failure_propagates; eassumption.
  - intros. eapply main_failure_propagates; eassumption.
  - intros. eapply main_exit_failure_propagates; eassumption.
  - intros. apply script_failure_propagates.
Qed.

(** ** Runs on the sample machine *)

Example full_path_7 :
  Loader.full_path "/srv/bot" 7 = "/srv/bot/assets/robot07.png"%string.
Proof. reflexivity. Qed.

Example full_path_25 :
  Loader.full_path "" 25 = "assets/robot025.png"%string.
Proof. reflexivity. Qed.

Example sample_loaded :
  Sample.loaded =
    (Ok Sample.globals,
     Loader.mk (repeat Sample.keyframe 50)
       (flat_map (fun i => [Loader.Open (Loader.full_path Sample.script_dir i);
                            Loader.Close (Loader.full_path Sample.script_dir i)])
                 (range 1 26))).
Proof. vm_compute. reflexivity. Qed.

Example sample_two_audio_frames :
  snd ((TalkingAnimation.process_frame Sample.super_process_frame
          Sample.globals Sample.audio DOWNSTREAM ;;
        TalkingAnimation.process_frame Sample.super_process_frame
          Sample.globals Sample.audio' DOWNSTREAM)
         (TalkingAnimation.__init__ tt)) =
    TalkingAnimation.mk tt true
      [(talking_frame Sample.globals, DOWNSTREAM);
       (Sample.audio, DOWNSTREAM); (Sample.audio', DOWNSTREAM)].
Proof. reflexivity. Qed.

Example sample_upstream_frame_goes_downstream :
  TalkingAnimation.emitted Sample.super_process_frame Sample.globals
    Sample.text UPSTREAM (TalkingAnimation.__init__ tt)
  = [(Sample.text, DOWNSTREAM)].
Proof. reflexivity. Qed.

(** The claims with a premise, each applied on the sample machine. *)

Lemma audio_frame_starts_talking_witness :
  is_AudioRawFrame Sample.audio = true
  /\ TalkingAnimation._is_talking (TalkingAnimation.__init__ tt) = false
  /\ TalkingAnimation.emitted Sample.super_process_frame Sample.globals
       Sample.audio DOWNSTREAM (TalkingAnimation.__init__ tt)
     = [(talking_frame Sample.globals, DOWNSTREAM);
        (Sample.audio, DOWNSTREAM)].
Proof.
  split; [reflexivity | split; [reflexivity |]].
  exact (proj2 (proj1 (@audio_frame_starts_talking unit
                         Sample.super_process_frame Sample.globals
                         Sample.audio DOWNSTREAM
                         (TalkingAnimation.__init__ tt) eq_refl)
                      eq_refl)).
Defined.

Lemma tts_stopped_frame_goes_quiet_witness :
  is_TTSStoppedFrame TTSStoppedFrame = true
  /\ TalkingAnimation._is_talking
       (snd (TalkingAnimation.process_frame Sample.super_process_frame
               Sample.globals TTSStoppedFrame DOWNSTREAM
               (TalkingAnimation.mk tt true [])))
     = false.
Proof.
  split; [reflexivity |].
  exact (proj2 (proj2 (@tts_stopped_frame_goes_quiet unit
                         Sample.super_process_frame Sample.globals
                         TTSStoppedFrame DOWNSTREAM
                         (TalkingAnimation.mk tt true []) eq_refl))).
Defined.

Lemma audio_while_talking_idempotent_witness :
  is_AudioRawFrame Sample.audio = true
  /\ is_AudioRawFrame Sample.audio' = true
  /\ (TalkingAnimation.process_frame Sample.super_process_frame
        Sample.globals Sample.audio DOWNSTREAM ;;
      TalkingAnimation.process_frame Sample.super_process_frame
        Sample.globals Sample.audio' DOWNSTREAM)
       (TalkingAnimation.__init__ tt)
     = (Ok tt,
        TalkingAnimation.mk tt true
          [(talking_frame Sample.globals, DOWNSTREAM);
           (Sample.audio, DOWNSTREAM); (Sample.audio', DOWNSTREAM)]).
Proof.
  split; [reflexivity | split; [reflexivity |]].
  exact (proj1 (proj2 (@audio_while_talking_idempotent unit
                         Sample.super_process_frame Sample.globals tt
                         Sample.audio DOWNSTREAM Sample.audio' DOWNSTREAM
                         (TalkingAnimation.mk tt true [])
                         eq_refl eq_refl))).
Defined.

Lemma tts_stopped_while_quiet_pushes_again_witness :
  is_TTSStoppedFrame TTSStoppedFrame = true
  /\ TalkingAnimation._is_talking (TalkingAnimation.__init__ tt) = false
  /\ TalkingAnimation.emitted Sample.super_process_frame Sample.globals
       TTSStoppedFrame DOWNSTREAM (TalkingAnimation.__init__ tt)
     = [(ImageRaw (quiet_frame Sample.globals), DOWNSTREAM);
        (TTSStoppedFrame, DOWNSTREAM)].
Proof.
  split; [reflexivity | split; [reflexivity |]].
  exact (proj1 (@tts_stopped_while_quiet_pushes_again unit
                  Sample.super_process_frame Sample.globals
                  TTSStoppedFrame DOWNSTREAM
                  (TalkingAnimation.__init__ tt) eq_refl eq_refl)).
Defined.

Lemma other_frame_only_forwarded_witness :
  is_AudioRawFrame Sample.text = false
  /\ is_TTSStoppedFrame Sample.text = false
  /\ TalkingAnimation.emitted Sample.super_process_frame Sample.globals
       Sample.text UPSTREAM (TalkingAnimation.mk tt true [])
     = [(Sample.text, DOWNSTREAM)].
Proof.
  split; [reflexivity | split; [reflexivity |]].
  exact (proj1 (proj2 (@other_frame_only_forwarded unit
                         Sample.super_process_frame Sample.globals
                         Sample.text UPSTREAM
                         (TalkingAnimation.mk tt true [])
                         eq_refl eq_refl))).
Defined.

Lemma sprites_loaded_in_index_order_witness :
  Loader.load_sprites Sample.script_dir Sample.Image_open Loader.initial
    = (Ok tt,
       snd (Loader.load_sprites Sample.script_dir Sample.Image_open
              Loader.initial))
  /\ nth_error
       (Loader.opened
          (Loader.io
             (snd (Loader.load_sprites Sample.script_dir Sample.Image_open
                     Loader.initial)))) 9
     = Some "/srv/bot/assets/robot010.png"%string
  /\ List.length
       (Loader.sprites
          (snd (Loader.load_sprites Sample.script_dir Sample.Image_open
                  Loader.initial))) = 25.
Proof.
  assert (H : Loader.load_sprites Sample.script_dir Sample.Image_open
                Loader.initial
              = (Ok tt,
                 snd (Loader.load_sprites Sample.script_dir
                        Sample.Image_open Loader.initial)))
    by (vm_compute; reflexivity).
  split; [exact H |].
  pose proof (@sprites_loaded_in_index_order Sample.script_dir
                Sample.Image_open _ H) as Hthm.
  split.
  - rewrite (proj1 Hthm). reflexivity.
  - exact (proj2 (proj2 (proj2 (proj2 (proj2 (proj2 Hthm)))))).
Defined.

Lemma sprites_are_keyframes_and_reverse_witness :
  Loader.module_init Sample.script_dir Sample.Image_open Loader.initial
    = (Ok Sample.globals, snd Sample.loaded)
  /\ List.length (sprites Sample.globals) = 50
  /\ rev (sprites Sample.globals) = sprites Sample.globals.
Proof.
  assert (H : Loader.module_init Sample.script_dir Sample.Image_open
                Loader.initial = (Ok Sample.globals, snd Sample.loaded))
    by (vm_compute; reflexivity).
  split; [exact H |].
  destruct (@sprites_are_keyframes_and_reverse Sample.script_dir
              Sample.Image_open Sample.globals (snd Sample.loaded) H)
    as (st1 & _ & _ & _ & _ & H50 & Hrev).
  split; [exact H50 | exact Hrev].
Defined.

Lemma pipeline_stages_in_order_witness :
  List.length
    (Main.pipelines
       (snd (Main.main tt Sample.environ Sample.all_return Sample.globals
               "https://example.daily.co/room" "token" [])))
  = 1.
Proof.
  rewrite (@pipeline_stages_in_order unit tt Sample.environ
             Sample.all_return Sample.globals
             "https://example.daily.co/room" "token"
             (fun c _ => eq_refl)).
  reflexivity.
Defined.

Lemma failures_propagate_unhandled_witness :
  (exists st,
     Loader.module_init Sample.script_dir Sample.Image_open_missing
       Loader.initial
       = (Raise (Exception "FileNotFoundError" "/srv/bot/assets/robot03.png"),
          st)
     /\ Loader.sprites st = [Sample.keyframe; Sample.keyframe]
     /\ Script.script tt (Ok tt) Sample.script_dir
          Sample.Image_open_missing Sample.configure Sample.environ
          Sample.all_return
        = (Raise (Exception "FileNotFoundError"
                    "/srv/bot/assets/robot03.png"),
           (st, [])))
  /\ fst (Main.main tt Sample.environ Sample.run_fails Sample.globals
            "https://example.daily.co/room" "token" [])
     = Raise (Exception "RuntimeError" "transport lost")
  /\ Main.main tt Sample.environ Sample.exit_fails Sample.globals
       "https://example.daily.co/room" "token" []
     = (Raise (Exception "ClientError" "session close failed"),
        Main.main_calls tt Sample.environ Sample.globals
          "https://example.daily.co/room" "token"
          ++ [Main.ClientSession_aexit unit])
  /\ fst (Script.script tt (Ok tt) Sample.script_dir Sample.Image_open
            Sample.configure Sample.environ Sample.run_fails)
     = Raise (Exception "RuntimeError" "transport lost")
  /\ fst (Script.script tt (Ok tt) Sample.script_dir Sample.Image_open
            Sample.configure Sample.environ Sample.exit_fails)
     = Raise (Exception "ClientError" "session close failed").
Proof.
  destruct failures_propagate_unhandled as (Hload & Hmain & Hexit & Hscript).
  assert (Hpre : forall c',
            In c' (firstn 17 (Main.main_calls tt Sample.environ
                                Sample.globals
                                "https://example.daily.co/room" "token")) ->
            Sample.run_fails c' = None).
  { intros c' Hin. cbn in Hin.
    repeat (destruct Hin as [<- | Hin]; [reflexivity |]).
    contradiction. }
  assert (Hrun :
            Main.main tt Sample.environ Sample.run_fails Sample.globals
              "https://example.daily.co/room" "token" []
            = (Raise (Exception "RuntimeError" "transport lost"),
               Main.main_calls tt Sample.environ Sample.globals
                 "https://example.daily.co/room" "token"
                 ++ [Main.ClientSession_aexit unit])).
  { exact (Hmain unit tt Sample.environ Sample.run_fails Sample.globals
             "https://example.daily.co/room"%string "token"%string
             (firstn 17 (Main.main_calls tt Sample.environ Sample.globals
                           "https://example.daily.co/room" "token"))
             (Main.runner_run unit) []
             (Exception "RuntimeError" "transport lost")
             eq_refl Hpre eq_refl). }
  assert (Hclose :
            Main.main tt Sample.environ Sample.exit_fails Sample.globals
              "https://example.daily.co/room" "token" []
            = (Raise (Exception "ClientError" "session close failed"),
               Main.main_calls tt Sample.environ Sample.globals
                 "https://example.daily.co/room" "token"
                 ++ [Main.ClientSession_aexit unit])).
  { apply (Hexit unit tt Sample.environ Sample.exit_fails Sample.globals
             "https://example.daily.co/room"%string "token"%string
             (Exception "ClientError" "session close failed"));
      [| reflexivity].
    intros c Hin. cbn in Hin.
    repeat (destruct Hin as [<- | Hin]; [reflexivity |]).
    contradiction. }
  assert (Hinit :
            Loader.module_init Sample.script_dir Sample.Image_open
              Loader.initial
            = (Ok Sample.globals,
               snd (Loader.module_init Sample.script_dir Sample.Image_open
                      Loader.initial)))
    by (vm_compute; reflexivity).
  split; [| split; [| split; [| split]]].
  - destruct (Hload Sample.script_dir Sample.Image_open_missing
                [1; 2] 3 (seq 4 22) [Sample.keyframe; Sample.keyframe]
                (Exception "FileNotFoundError" "/srv/bot/assets/robot03.png")
                eq_refl eq_refl eq_refl)
      as (st & Hinit' & Hsp & _).
    exists st. split; [exact Hinit' |]. split; [exact Hsp |].
    destruct (Hscript unit tt (Ok tt) Sample.script_dir
                Sample.Image_open_missing Sample.configure Sample.environ
                Sample.all_return) as (_ & Hmod & _).
    exact (Hmod tt _ st eq_refl Hinit').
  - rewrite Hrun. reflexivity.
  - exact Hclose.
  - destruct (Hscript unit tt (Ok tt) Sample.script_dir Sample.Image_open
                Sample.configure Sample.environ Sample.run_fails)
      as (_ & _ & _ & Hm).
    rewrite (Hm tt _ _ _ _ _ _ eq_refl Hinit eq_refl Hrun). reflexivity.
  - destruct (Hscript unit tt (Ok tt) Sample.script_dir Sample.Image_open
                Sample.configure Sample.environ Sample.exit_fails)
      as (_ & _ & _ & Hm).
    rewrite (Hm tt _ _ _ _ _ _ eq_refl Hinit eq_refl Hclose). reflexivity.
Defined.

(** ** A stream of frames through the processor *)

Section DeliveryFacts.

Variable Base : Type.
Variable spf : Frame -> FrameDirection -> Base -> Base.
Variable g : Globals.t.

Lemma process_frames_step frame direction rest (self : TalkingAnimation.t Base) :
  Delivery.process_frames spf g ((frame, direction) :: rest) self =
    Delivery.process_frames spf g rest
      (snd (TalkingAnimation.process_frame spf g frame direction self)).
Proof.
  unfold Delivery.process_frames. cbn [for_each fst snd]. unfold bind.
  rewrite process_frame_run. reflexivity.
Qed.

Lemma process_frames_app frames : forall frames' (self : TalkingAnimation.t Base),
  Delivery.process_frames spf g (frames ++ frames') self =
    Delivery.process_frames spf g frames'
      (snd (Delivery.process_frames spf g frames self)).
Proof.
  induction frames as [| [f d] frames IH]; intros frames' self.
  - reflexivity.
  - cbn [app]. rewrite !process_frames_step. apply IH.
Qed.

(** A stream never fails, and what it pushes is the stream itself sent on
    downstream, with sprite frames in between. *)
Lemma process_frames_pushed frames : forall (self : TalkingAnimation.t Base),
  exists out,
    TalkingAnimation.pushed (snd (Delivery.process_frames spf g frames self))
      = TalkingAnimation.pushed self ++ out
    /\ Delivery.forwards g frames out.
Proof.
  induction frames as [| [f d] frames IH]; intros self.
  - exists []. rewrite app_nil_r. split; [reflexivity | constructor].
  - rewrite process_frames_step.
    destruct (IH (snd (TalkingAnimation.process_frame spf g f d self)))
      as (out & Hout & Hfw).
    rewrite Hout, process_frame_run. cbn [snd].
    destruct (is_AudioRawFrame f);
      [destruct (TalkingAnimation._is_talking self)
      | destruct (is_TTSStoppedFrame f)];
      cbn [TalkingAnimation.after TalkingAnimation.pushed];
      rewrite <- app_assoc; eexists; (split; [reflexivity |]); cbn [app].
    + apply Delivery.forwards_plain. exact Hfw.
    + apply Delivery.forwards_sprite; [left; reflexivity | exact Hfw].
    + apply Delivery.forwards_sprite; [right; reflexivity | exact Hfw].
    + apply Delivery.forwards_plain. exact Hfw.
Qed.

Lemma emitted_forwards frames (self : TalkingAnimation.t Base) :
  Delivery.forwards g frames (Delivery.emitted spf g frames self).
Proof.
  unfold Delivery.emitted.
  destruct (process_frames_pushed frames self) as (out & Hout & Hfw).
  rewrite Hout, skipn_own_length. exact Hfw.
Qed.

(** X1: whatever frames arrive and from whichever side, the processor
    sends every one of them on, once and in the order of arrival, with at
    most one sprite frame ([talking_frame] or [quiet_frame]) in front of
    each: it pushes at least as many frames as it received and at most
    twice as many. *)
Theorem stream_forwarded_in_order frames (self : TalkingAnimation.t Base) :
  Delivery.forwards g frames (Delivery.emitted spf g frames self)
  /\ List.length frames <= List.length (Delivery.emitted spf g frames self)
  /\ List.length (Delivery.emitted spf g frames self)
     <= 2 * List.length frames.
Proof.
  pose proof (emitted_forwards frames self) as Hfw.
  split; [exact Hfw |].
  induction Hfw; cbn [List.length]; lia.
Qed.

(** X2: the processor never pushes upstream: every frame it pushes, a
    forwarded one as well as a sprite frame, goes downstream, also when
    the frame it was handed travelled upstream. *)
Theorem stream_pushed_downstream_only frames (self : TalkingAnimation.t Base) :
  Forall (fun p => snd p = DOWNSTREAM) (Delivery.emitted spf g frames self).
Proof.
  pose proof (emitted_forwards frames self) as Hfw.
  induction Hfw; repeat constructor; assumption.
Qed.

(** Frames that are neither audio nor a stop of the synthesis are only
    sent on: the flag stays as it is. *)
Lemma quiet_stream frames : forall (self : TalkingAnimation.t Base),
  (forall p, In p frames ->
     is_AudioRawFrame (fst p) = false /\ is_TTSStoppedFrame (fst p) = false) ->
  TalkingAnimation._is_talking (snd (Delivery.process_frames spf g frames self))
    = TalkingAnimation._is_talking self
  /\ TalkingAnimation.pushed (snd (Delivery.process_frames spf g frames self))
     = TalkingAnimation.pushed self
         ++ map (fun p => (fst p, DOWNSTREAM)) frames.
Proof.
  induction frames as [| [f d] frames IH]; intros self Hq.
  - rewrite app_nil_r. split; reflexivity.
  - destruct (Hq (f, d) (or_introl eq_refl)) as [Ha Ht]. cbn [fst] in Ha, Ht.
    rewrite process_frames_step.
    destruct (IH (snd (TalkingAnimation.process_frame spf g f d self)))
      as [Hflag Hpushed]; [intros p Hin; apply Hq; right; exact Hin |].
    rewrite Hflag, Hpushed, process_frame_run, Ha, Ht.
    cbn [snd TalkingAnimation.after TalkingAnimation._is_talking
         TalkingAnimation.pushed map fst].
    rewrite <- app_assoc. split; reflexivity.
Qed.

(** While the flag is set and the synthesis does not stop, frames are
    only sent on, audio frames included. *)
Lemma talking_stream frames : forall (self : TalkingAnimation.t Base),
  TalkingAnimation._is_talking self = true ->
  (forall p, In p frames -> is_TTSStoppedFrame (fst p) = false) ->
  TalkingAnimation._is_talking (snd (Delivery.process_frames spf g frames self))
    = true
  /\ TalkingAnimation.pushed (snd (Delivery.process_frames spf g frames self))
     = TalkingAnimation.pushed self
         ++ map (fun p => (fst p, DOWNSTREAM)) frames.
Proof.
  induction frames as [| [f d] frames IH]; intros self Hflag Hq.
  - rewrite app_nil_r. split; [exact Hflag | reflexivity].
  - pose proof (Hq (f, d) (or_introl eq_refl)) as Ht. cbn [fst] in Ht.
    rewrite process_frames_step.
    assert (Hone : snd (TalkingAnimation.process_frame spf g f d self)
                   = TalkingAnimation.after spf f d self true
                       [(f, DOWNSTREAM)]).
    { rewrite process_frame_run, Ht, Hflag.
      destruct (is_AudioRawFrame f); reflexivity. }
    destruct (IH (snd (TalkingAnimation.process_frame spf g f d self)))
      as [Hflag' Hpushed];
      [rewrite Hone; reflexivity
      | intros p Hin; apply Hq; right; exact Hin |].
    rewrite Hflag', Hpushed, Hone.
    cbn [TalkingAnimation.after TalkingAnimation.pushed map fst].
    rewrite <- app_assoc. split; reflexivity.
Qed.

(** X3: after any stream of frames the flag only remembers the last
    frame that was an AudioRawFrame or a TTSStoppedFrame: it is true if
    that frame was audio and false if it was a stop, whatever came
    before; a stream without such a frame leaves the flag as it was. *)
Theorem flag_follows_last_signal pre frame direction post
    (self : TalkingAnimation.t Base) :
  (forall p, In p post ->
     is_AudioRawFrame (fst p) = false /\ is_TTSStoppedFrame (fst p) = false) ->
  (is_AudioRawFrame frame = true \/ is_TTSStoppedFrame frame = true) ->
  TalkingAnimation._is_talking
    (snd (Delivery.process_frames spf g
            (pre ++ (frame, direction) :: post) self))
    = is_AudioRawFrame frame
  /\ TalkingAnimation._is_talking
       (snd (Delivery.process_frames spf g post self))
     = TalkingAnimation._is_talking self.
Proof.
  intros Hpost Hsignal. split.
  - rewrite process_frames_app, process_frames_step.
    rewrite (proj1 (quiet_stream post _ Hpost)).
    set (self1 := snd (Delivery.process_frames spf g pre self)).
    rewrite process_frame_run. cbn [snd].
    destruct Hsignal as [Ha | Ht].
    + rewrite Ha. destruct (TalkingAnimation._is_talking self1); reflexivity.
    + assert (Ha : is_AudioRawFrame frame = false)
        by (destruct frame; simpl in *; congruence).
      rewrite Ha, Ht. reflexivity.
  - exact (proj1 (quiet_stream post self Hpost)).
Qed.

(** X4: as long as the synthesis does not stop, the animation is started
    once: a processor that is not talking and receives frames among which
    no TTSStoppedFrame occurs pushes [talking_frame] exactly once, right
    before the first AudioRawFrame, and otherwise only sends the frames
    on. *)
Theorem talking_frame_once_per_utterance pre frame direction post
    (self : TalkingAnimation.t Base) :
  TalkingAnimation._is_talking self = false ->
  (forall p, In p pre ->
     is_AudioRawFrame (fst p) = false /\ is_TTSStoppedFrame (fst p) = false) ->
  is_AudioRawFrame frame = true ->
  (forall p, In p post -> is_TTSStoppedFrame (fst p) = false) ->
  Delivery.emitted spf g (pre ++ (frame, direction) :: post) self =
    map (fun p => (fst p, DOWNSTREAM)) pre
      ++ (talking_frame g, DOWNSTREAM)
      :: map (fun p => (fst p, DOWNSTREAM)) ((frame, direction) :: post).
Proof.
  intros Hflag Hpre Haudio Hpost.
  unfold Delivery.emitted.
  rewrite process_frames_app, process_frames_step.
  destruct (quiet_stream pre self Hpre) as [Hflag1 Hpushed1].
  set (self1 := snd (Delivery.process_frames spf g pre self)) in *.
  assert (Hone : snd (TalkingAnimation.process_frame spf g frame direction self1)
                 = TalkingAnimation.after spf frame direction self1 true
                     [(talking_frame g, DOWNSTREAM); (frame, DOWNSTREAM)]).
  { rewrite process_frame_run, Haudio, Hflag1, Hflag. reflexivity. }
  destruct (talking_stream post
              (snd (TalkingAnimation.process_frame spf g frame direction self1)))
    as [_ Hpushed2];
    [rewrite Hone; reflexivity | exact Hpost |].
  rewrite Hpushed2, Hone.
  cbn [TalkingAnimation.after TalkingAnimation.pushed map fst].
  rewrite Hpushed1, <- !app_assoc. cbn [app].
  apply skipn_own_length.
Qed.

(** X5: a stop of the synthesis re-arms the animation: whatever state the
    processor is in, a TTSStoppedFrame followed by an AudioRawFrame makes
    it push [quiet_frame], the stop, [talking_frame] and the audio frame,
    in this order. *)
Theorem stop_then_audio_restarts stop d1 audio d2
    (self : TalkingAnimation.t Base) :
  is_TTSStoppedFrame stop = true ->
  is_AudioRawFrame audio = true ->
  Delivery.emitted spf g [(stop, d1); (audio, d2)] self =
    [(ImageRaw (quiet_frame g), DOWNSTREAM); (stop, DOWNSTREAM);
     (talking_frame g, DOWNSTREAM); (audio, DOWNSTREAM)].
Proof.
  intros Hstop Haudio.
  assert (Hna : is_AudioRawFrame stop = false)
    by (destruct stop; simpl in *; congruence).
  unfold Delivery.emitted. rewrite !process_frames_step.
  rewrite (process_frame_run spf g stop d1 self), Hna, Hstop. cbn [snd].
  rewrite process_frame_run, Haudio.
  cbn [snd TalkingAnimation.after TalkingAnimation._is_talking
       TalkingAnimation.pushed Delivery.process_frames for_each ret].
  rewrite <- app_assoc. apply skipn_own_length.
Qed.

End DeliveryFacts.

(** ** More on the sprite loader *)

Section LoaderMore.

Variable script_dir : string.
Variable Image_open : string -> result Image.t.

Lemma closed_app evs evs' : closed (evs ++ evs') = closed evs ++ closed evs'.
Proof.
  induction evs as [| [p | p] evs IH]; simpl; [reflexivity | exact IH |].
  rewrite IH. reflexivity.
Qed.

(** One round keeps this true: the files closed so far are the files
    opened so far, those left out that [Image.open] refused. *)
Lemma load_one_closes i s :
  closed (Loader.io s)
    = filter (fun p => returned (Image_open p))
        (Loader.opened (Loader.io s)) ->
  closed (Loader.io (snd (Loader.load_one script_dir Image_open i s)))
    = filter (fun p => returned (Image_open p))
        (Loader.opened
           (Loader.io (snd (Loader.load_one script_dir Image_open i s)))).
Proof.
  unfold Loader.load_one, with_, bind, Loader.log, lift, modify,
    Loader.sprites_append.
  intros Hinv.
  destruct (Image_open (Loader.full_path script_dir i)) as [img | e] eqn:Hopen;
    [destruct (Image.tobytes img) as [bytes | e] |];
    simpl;
    rewrite !closed_app, !opened_app, !filter_app, Hinv;
    simpl; rewrite Hopen; simpl; rewrite ?app_nil_r, <- ?app_assoc;
    reflexivity.
Qed.

Lemma for_each_load_closes xs : forall s,
  closed (Loader.io s)
    = filter (fun p => returned (Image_open p))
        (Loader.opened (Loader.io s)) ->
  closed (Loader.io
            (snd (for_each xs (Loader.load_one script_dir Image_open) s)))
    = filter (fun p => returned (Image_open p))
        (Loader.opened
           (Loader.io
              (snd (for_each xs (Loader.load_one script_dir Image_open) s)))).
Proof.
  induction xs as [| i xs IH]; intros s Hinv; [exact Hinv |].
  cbn [for_each]. unfold bind.
  pose proof (@load_one_closes i s Hinv) as Hone.
  destruct (Loader.load_one script_dir Image_open i s) as [[[] | e] s1];
    cbn [snd] in *; [apply IH; exact Hone | exact Hone].
Qed.

(** X6: no image file is left open.  Whether the loading loop ends or is
    stopped by an exception, every file that [Image.open] returned has
    been closed, also the one whose bytes could not be read; the files
    closed are exactly the files opened with success, in the same
    order. *)
Theorem opened_files_are_closed :
  closed (Loader.io
            (snd (Loader.load_sprites script_dir Image_open Loader.initial)))
  = filter (fun p => returned (Image_open p))
      (Loader.opened
         (Loader.io
            (snd (Loader.load_sprites script_dir Image_open
                    Loader.initial)))).
Proof.
  apply (@for_each_load_closes (range 1 26) Loader.initial).
  reflexivity.
Qed.

Lemma for_each_load_raise_inv xs : forall s s' e,
  for_each xs (Loader.load_one script_dir Image_open) s = (Raise e, s') ->
  exists k, In k xs /\ Loader.frame_of_file script_dir Image_open k = Raise e.
Proof.
  induction xs as [| i xs IH]; intros s s' e Hrun.
  - discriminate Hrun.
  - cbn [for_each] in Hrun. unfold bind in Hrun.
    destruct (Loader.frame_of_file script_dir Image_open i) as [f | e0] eqn:Hi.
    + rewrite (@load_one_ok script_dir Image_open i f s Hi) in Hrun.
      destruct (IH _ _ _ Hrun) as (k & Hin & Hk).
      exists k. split; [right; exact Hin | exact Hk].
    + destruct (@load_one_raise script_dir Image_open i e0 s Hi)
        as (s1 & Hone & _).
      rewrite Hone in Hrun. injection Hrun as <- _.
      exists i. split; [left; reflexivity | exact Hi].
Qed.

(** What a run of the module-level code that ends well has done. *)
Lemma module_init_ok_inv g st :
  Loader.module_init script_dir Image_open Loader.initial = (Ok g, st) ->
  exists keyframes,
    map (Loader.frame_of_file script_dir Image_open) (range 1 26)
      = map Ok keyframes
    /\ sprites g = keyframes ++ rev keyframes
    /\ hd_error (sprites g) = Some (quiet_frame g)
    /\ talking_frame g = SpriteFrame (sprites g).
Proof.
  intros Hinit.
  destruct (@module_init_globals script_dir Image_open g st Hinit)
    as (_ & Htalk & Hquiet).
  revert Hinit.
  unfold Loader.module_init, Loader.sprites_first, Loader.get_sprites,
    Loader.sprites_extend, bind, get, ret, modify, raise.
  destruct (Loader.load_sprites script_dir Image_open Loader.initial)
    as [[[] | e] st1] eqn:Hload; [| discriminate].
  unfold Loader.load_sprites in Hload.
  destruct (@for_each_load_inv script_dir Image_open _ _ _ Hload)
    as (fs & Hfs).
  destruct (@for_each_load_ok script_dir Image_open _ fs Loader.initial Hfs)
    as (s' & Hrun & Hsp & _).
  rewrite Hload in Hrun. injection Hrun as <-. simpl in Hsp.
  cbn [Loader.sprites Loader.io]. rewrite Hsp.
  destruct (fs ++ rev fs) eqn:E; [discriminate |].
  intros H. injection H as Hg _.
  exists fs. repeat split; try assumption.
  rewrite <- Hg. cbn [sprites]. symmetry. exact E.
Qed.

(** X7: the module-level code ends well exactly when each of the 25 files
    can be opened and read, and an exception that leaves it is always one
    raised for a file: [sprites[0]] never fails with an IndexError of its
    own. *)
Theorem module_init_fails_only_on_a_file :
  ((exists g st,
      Loader.module_init script_dir Image_open Loader.initial = (Ok g, st))
   <-> forall i, In i (range 1 26) ->
         returned (Loader.frame_of_file script_dir Image_open i) = true)
  /\ (forall e st,
        Loader.module_init script_dir Image_open Loader.initial
          = (Raise e, st) ->
        exists k, In k (range 1 26)
                  /\ Loader.frame_of_file script_dir Image_open k = Raise e).
Proof.
  assert (Hraise : forall e st,
            Loader.module_init script_dir Image_open Loader.initial
              = (Raise e, st) ->
            exists k, In k (range 1 26)
                      /\ Loader.frame_of_file script_dir Image_open k
                         = Raise e).
  { intros e st.
    unfold Loader.module_init, Loader.sprites_first, Loader.get_sprites,
      Loader.sprites_extend, bind, get, ret, modify, raise.
    destruct (Loader.load_sprites script_dir Image_open Loader.initial)
      as [[[] | e0] st1] eqn:Hload.
    - unfold Loader.load_sprites in Hload.
      destruct (@for_each_load_inv script_dir Image_open _ _ _ Hload)
        as (fs & Hfs).
      destruct (@for_each_load_ok script_dir Image_open _ fs
                  Loader.initial Hfs) as (s' & Hrun & Hsp & _).
      rewrite Hload in Hrun. injection Hrun as <-.
      simpl in Hsp. cbn [Loader.sprites Loader.io].
      rewrite Hsp.
      destruct fs as [| f fs]; [discriminate Hfs |].
      cbn [app]. discriminate.
    - intros H. injection H as <- _.
      eapply for_each_load_raise_inv. exact Hload. }
  split; [split |].
  - intros (g & st & Hinit) i Hin.
    destruct (@module_init_ok_inv g st Hinit) as (ks & Hks & _).
    assert (Hin' : In (Loader.frame_of_file script_dir Image_open i)
                      (map Ok ks))
      by (rewrite <- Hks; apply in_map; exact Hin).
    apply in_map_iff in Hin'. destruct Hin' as (f & <- & _). reflexivity.
  - intros Hall.
    destruct (Loader.module_init script_dir Image_open Loader.initial)
      as [[g | e] st] eqn:Hinit.
    + exists g, st. reflexivity.
    + destruct (Hraise e st eq_refl) as (k & Hin & Hk).
      specialize (Hall k Hin). rewrite Hk in Hall. discriminate Hall.
  - exact Hraise.
Qed.

(** X8: the quiet frame is the frame of [robot01.png], and the animation
    both starts and ends on it: it is the first and the last of the 50
    images of [talking_frame]. *)
Theorem quiet_frame_is_first_asset g st :
  Loader.module_init script_dir Image_open Loader.initial = (Ok g, st) ->
  Loader.frame_of_file script_dir Image_open 1 = Ok (quiet_frame g)
  /\ talking_frame g = SpriteFrame (sprites g)
  /\ nth_error (sprites g) 0 = Some (quiet_frame g)
  /\ nth_error (sprites g) 49 = Some (quiet_frame g).
Proof.
  intros Hinit.
  destruct (@module_init_ok_inv g st Hinit)
    as (ks & Hks & Hsp & Hhd & Htalk).
  assert (Hlen : List.length ks = 25).
  { apply (f_equal (@List.length _)) in Hks.
    rewrite !length_map in Hks. rewrite <- Hks. reflexivity. }
  rewrite Hsp in Hhd |- *.
  do 25 (destruct ks as [| ? ks]; [discriminate Hlen |]).
  destruct ks; [| discriminate Hlen].
  cbn [app hd_error] in Hhd. injection Hhd as <-.
  cbn [range seq map Nat.sub] in Hks. injection Hks as Hone _.
  repeat split; [exact Hone | rewrite Htalk, Hsp; reflexivity].
Qed.

Lemma string_length_append (a b : string) :
  String.length (a ++ b) = String.length a + String.length b.
Proof. induction a as [| c a IH]; simpl; [reflexivity | rewrite IH; reflexivity]. Qed.

Lemma append_inj_r (s a : string) : forall b,
  (a ++ s = b ++ s)%string -> a = b.
Proof.
  induction a as [| c a IH]; intros [| c' b] E.
  - reflexivity.
  - apply (f_equal String.length) in E. simpl in E.
    rewrite string_length_append in E. lia.
  - apply (f_equal String.length) in E. simpl in E.
    rewrite string_length_append in E. lia.
  - simpl in E. injection E as -> E. rewrite (IH b E). reflexivity.
Qed.

(** X9: two indices never name the same file: the path built for an
    index determines the index, for every directory the script may be
    in. *)
Theorem full_path_injective i j :
  Loader.full_path script_dir i = Loader.full_path script_dir j -> i = j.
Proof.
  unfold Loader.full_path, os_path_join. cbn [String.prefix].
  intros E.
  assert (E' : ("assets/robot0" ++ str i ++ ".png"
                = "assets/robot0" ++ str j ++ ".png")%string).
  { destruct (String.eqb script_dir "" || endswith_sep script_dir)%bool.
    - exact (@append_inj_l _ _ _ E).
    - apply append_inj_l in E.
      exact (@append_inj_l "/" _ _ E). }
  apply (@append_inj_l "assets/robot0") in E'.
  apply append_inj_r in E'. unfold str in E'.
  apply DecimalNat.Unsigned.to_uint_inj.
  assert (H : NilEmpty.uint_of_string
                (NilEmpty.string_of_uint (Nat.to_uint i))
              = NilEmpty.uint_of_string
                  (NilEmpty.string_of_uint (Nat.to_uint j)))
    by (rewrite E'; reflexivity).
  rewrite !NilEmpty.usu in H. injection H as H. exact H.
Qed.

End LoaderMore.

(** ** More on [main] *)

Section MainMore.

Variable Base : Type.
Variable super_init : Base.
Variable environ : string -> option string.
Variable raises : Main.call Base -> option exn.
Variable g : Globals.t.
Variables room_url token : string.

(** The calls made by a run of [main]: an initial part of the program,
    then the exit of the session if the session was entered. *)
Lemma main_trace_prefix :
  exists k,
    1 <= k
    /\ snd (Main.main super_init environ raises g room_url token []) =
         firstn k (Main.main_calls super_init environ g room_url token)
           ++ match raises (Main.ClientSession_aenter Base) with
              | None => [Main.ClientSession_aexit Base]
              | Some _ => []
              end.
Proof.
  destruct (raises (Main.ClientSession_aenter Base)) as [e |] eqn:Henter.
  - exists 1. split; [lia |].
    unfold Main.main, with_, Main.ext. rewrite Henter. reflexivity.
  - rewrite (@main_trace Base super_init environ raises g room_url token
               Henter).
    destruct (@run_calls_trace Base raises
                (tl (Main.main_calls super_init environ g room_url token))
                [Main.ClientSession_aenter Base]) as (k & Hk).
    exists (S k). split; [lia |]. rewrite Hk. reflexivity.
Qed.

(** X10: [main] makes its calls in program order and skips none: the
    calls made are always an initial part of the eighteen calls of the
    program, starting with the entry of the session, and the session is
    left, as the last call, exactly when it was entered. *)
Theorem main_calls_in_program_order :
  exists k,
    1 <= k <= 18
    /\ snd (Main.main super_init environ raises g room_url token []) =
         firstn k (Main.main_calls super_init environ g room_url token)
           ++ match raises (Main.ClientSession_aenter Base) with
              | None => [Main.ClientSession_aexit Base]
              | Some _ => []
              end.
Proof.
  destruct main_trace_prefix as (k & Hk & Htr).
  destruct (Compare_dec.le_lt_dec k 18) as [Hle | Hgt].
  - exists k. split; [lia | exact Htr].
  - exists 18. split; [lia |]. rewrite Htr.
    rewrite !firstn_all2; [reflexivity | reflexivity | cbn; lia].
Qed.

Lemma run_calls_returns cs : forall tr,
  fst (Main.run_calls raises cs tr) = Ok tt
  <-> forall c, In c cs -> raises c = None.
Proof.
  induction cs as [| c cs IH]; intros tr.
  - split; [intros _ c [] | reflexivity].
  - rewrite run_calls_step. destruct (raises c) as [e |] eqn:Hc.
    + split; [discriminate |].
      intros H. rewrite (H c (or_introl eq_refl)) in Hc. discriminate Hc.
    + rewrite IH. split.
      * intros H c' [<- | Hin]; [exact Hc | exact (H c' Hin)].
      * intros H c' Hin. apply H. right. exact Hin.
Qed.

(** X11: [main] returns normally exactly when none of its calls raises,
    the exit of the session included: an exception of any of them is
    enough to make [main] end with an exception. *)
Theorem main_returns_iff_no_call_raises :
  fst (Main.main super_init environ raises g room_url token []) = Ok tt
  <-> forall c,
        In c (Main.main_calls super_init environ g room_url token
                ++ [Main.ClientSession_aexit Base]) ->
        raises c = None.
Proof.
  unfold Main.main, with_. unfold Main.ext at 1.
  change (Main.main_calls super_init environ g room_url token)
    with (Main.ClientSession_aenter Base
            :: tl (Main.main_calls super_init environ g room_url token)).
  destruct (raises (Main.ClientSession_aenter Base)) as [e |] eqn:Henter.
  - split; [discriminate |].
    intros H. rewrite (H _ (or_introl eq_refl)) in Henter.
    discriminate Henter.
  - rewrite main_body_run.
    pose proof (run_calls_returns
                  (tl (Main.main_calls super_init environ g room_url token))
                  ([] ++ [Main.ClientSession_aenter Base])) as Hbody.
    destruct (Main.run_calls raises _ _) as [[[] | e] tr2]; cbn [fst] in Hbody;
      unfold Main.ext;
      destruct (raises (Main.ClientSession_aexit Base)) as [e' |] eqn:Hexit;
      cbn [fst]; split; try discriminate; try reflexivity.
    + intros H. rewrite (H (Main.ClientSession_aexit Base)) in Hexit;
        [discriminate Hexit |].
      right. apply in_or_app. right. left. reflexivity.
    + intros _ c [<- | Hin]; [exact Henter |].
      apply in_app_or in Hin. destruct Hin as [Hin | [<- | []]];
        [apply (proj1 Hbody eq_refl); exact Hin | exact Hexit].
    + intros H. rewrite (H (Main.ClientSession_aexit Base)) in Hexit;
        [discriminate Hexit |].
      right. apply in_or_app. right. left. reflexivity.
    + intros H.
      assert (Hok : Raise e = Ok tt :> result unit).
      { apply (proj2 Hbody). intros c Hin. apply H. right.
        apply in_or_app. left. exact Hin. }
      discriminate Hok.
Qed.

End MainMore.

(** ** The handler *)

Section HandlerFacts.

Variable raises : Handler.call -> option exn.
Variable content : string.

Lemma getitem_missing d key :
  (forall v, ~ In (key, v) d) ->
  Handler.getitem d key = Raise (Exception "KeyError" key).
Proof.
  induction d as [| [k v] d IH]; intros Hno; [reflexivity |].
  cbn [Handler.getitem]. destruct (String.eqb_spec k key) as [-> | Hne].
  - exfalso. apply (Hno v). left. reflexivity.
  - apply IH. intros v' Hin. apply (Hno v'). right. exact Hin.
Qed.

(** X12: a participant without the key [id] makes the handler fail with
    a KeyError before anything is called: no transcription is captured
    and no message reaches the LLM. *)
Theorem handler_without_id participant :
  (forall v, ~ In ("id"%string, v) participant) ->
  Handler.on_first_participant_joined raises content participant [] =
    (Raise (Exception "KeyError" "id"), []).
Proof.
  intros Hno. unfold Handler.on_first_participant_joined, bind, lift.
  rewrite (@getitem_missing participant "id" Hno). reflexivity.
Qed.

(** For a participant with an id, the handler first captures the
    transcription of that id and then queues one LLMMessagesFrame that
    holds the one system message; if the capture raises, the frame is
    never queued. *)
Theorem handler_with_id participant participant_id :
  Handler.getitem participant "id" = Ok participant_id ->
  Handler.on_first_participant_joined raises content participant [] =
    match raises (Handler.capture_participant_transcription participant_id)
    with
    | Some e =>
        (Raise e, [Handler.capture_participant_transcription participant_id])
    | None =>
        (match raises (Handler.task_queue_frames
                         [LLMMessagesFrame [("system"%string, content)]])
         with
         | Some e => Raise e
         | None => Ok tt
         end,
         [Handler.capture_participant_transcription participant_id;
          Handler.task_queue_frames
            [LLMMessagesFrame [("system"%string, content)]]])
    end.
Proof.
  intros Hid.
  unfold Handler.on_first_participant_joined, bind, lift, Handler.ext,
    Handler.messages.
  rewrite Hid.
  destruct (raises (Handler.capture_participant_transcription participant_id));
    reflexivity.
Qed.

End HandlerFacts.

(** ** The whole program *)

Section ScriptFacts.

Variable Base : Type.
Variable super_init : Base.
Variable setup : result unit.
Variable script_dir : string.
Variable Image_open : string -> result Image.t.
Variable configure : result (string * string).
Variable environ : string -> option string.
Variable raises : Main.call Base -> option exn.

(** X13: one asset that cannot be loaded keeps the program from reaching
    [main]: the program ends with an exception and no session is opened
    and no call into the framework is made. *)
Theorem missing_asset_prevents_main k e :
  In k (range 1 26) ->
  Loader.frame_of_file script_dir Image_open k = Raise e ->
  snd (snd (Script.script super_init setup script_dir Image_open configure
              environ raises)) = []
  /\ exists e',
       fst (Script.script super_init setup script_dir Image_open configure
              environ raises) = Raise e'.
Proof.
  intros Hin Hk. unfold Script.script.
  destruct setup as [[] | e0]; [| split; [reflexivity | eexists; reflexivity]].
  destruct (Loader.module_init script_dir Image_open Loader.initial)
    as [[g | e1] st] eqn:Hinit;
    [| split; [reflexivity | eexists; reflexivity]].
  exfalso.
  destruct (@module_init_ok_inv script_dir Image_open g st Hinit)
    as (ks & Hks & _).
  assert (Hin' : In (Loader.frame_of_file script_dir Image_open k)
                    (map Ok ks))
    by (rewrite <- Hks; apply in_map; exact Hin).
  rewrite Hk in Hin'. apply in_map_iff in Hin'.
  destruct Hin' as (f & Hf & _). discriminate Hf.
Qed.

Lemma In_firstn (A : Type) (x : A) k : forall l, In x (firstn k l) -> In x l.
Proof.
  induction k as [| k IH]; intros [| a l] Hin; try contradiction.
  destruct Hin as [-> | Hin]; [left; reflexivity | right; exact (IH l Hin)].
Qed.

(** X14: the only frame the program ever queues on the task before the
    run is the frame of [robot01.png]: the avatar is shown quiet, with
    the first asset, before anybody talks. *)
Theorem queued_frame_is_first_asset frame :
  In (Main.task_queue_frame Base frame)
     (snd (snd (Script.script super_init setup script_dir Image_open
                  configure environ raises))) ->
  exists img,
    Loader.frame_of_file script_dir Image_open 1 = Ok img
    /\ frame = ImageRaw img.
Proof.
  unfold Script.script.
  destruct setup as [[] | e0]; [| intros []].
  destruct (Loader.module_init script_dir Image_open Loader.initial)
    as [[g | e1] st] eqn:Hinit; [| intros []].
  destruct configure as [[url token] | e2]; [| intros []].
  destruct (@main_trace_prefix Base super_init environ raises g url token)
    as (k & _ & Htr).
  destruct (Main.main super_init environ raises g url token []) as [r tr].
  cbn [snd] in *. subst tr. intros Hin.
  assert (Hq : frame = ImageRaw (quiet_frame g)).
  { apply in_app_or in Hin. destruct Hin as [Hin | Hin].
    - apply In_firstn in Hin. unfold Main.main_calls in Hin.
      cbn [In] in Hin.
      repeat (destruct Hin as [Heq | Hin]; [try discriminate Heq |]);
        [| contradiction].
      injection Heq as Heq. symmetry. exact Heq.
    - destruct (raises (Main.ClientSession_aenter Base));
        [contradiction |].
      destruct Hin as [Heq | []]. discriminate Heq. }
  exists (quiet_frame g). split; [| exact Hq].
  destruct (@module_init_ok_inv script_dir Image_open g st Hinit)
    as (ks & Hks & Hsp & Hhd & _).
  destruct ks as [| k1 ks]; [discriminate Hks |].
  rewrite Hsp in Hhd. cbn [app hd_error] in Hhd. injection Hhd as <-.
  cbn [range seq map Nat.sub] in Hks. injection Hks as Hone _. exact Hone.
Qed.

End ScriptFacts.

(** The further properties with a premise, each applied on the sample
    machine. *)

Lemma flag_follows_last_signal_witness :
  TalkingAnimation._is_talking
    (snd (Delivery.process_frames Sample.super_process_frame Sample.globals
            Demo.frames (TalkingAnimation.__init__ tt)))
  = false.
Proof.
  refine (proj1 (@flag_follows_last_signal unit Sample.super_process_frame
                   Sample.globals
                   [(Sample.text, UPSTREAM); (Sample.audio, DOWNSTREAM);
                    (Sample.audio', DOWNSTREAM)]
                   TTSStoppedFrame DOWNSTREAM [(Sample.text, DOWNSTREAM)]
                   (TalkingAnimation.__init__ tt) _ (or_intror eq_refl))).
  intros p [<- | []]. split; reflexivity.
Defined.

Lemma talking_frame_once_per_utterance_witness :
  Delivery.emitted Sample.super_process_frame Sample.globals
    ((Sample.text, UPSTREAM) :: Demo.utterance)
    (TalkingAnimation.__init__ tt)
  = [(Sample.text, DOWNSTREAM); (talking_frame Sample.globals, DOWNSTREAM);
     (Sample.audio', DOWNSTREAM); (Sample.text, DOWNSTREAM);
     (Sample.audio, DOWNSTREAM)].
Proof.
  apply (@talking_frame_once_per_utterance unit Sample.super_process_frame
           Sample.globals [(Sample.text, UPSTREAM)] Sample.audio' DOWNSTREAM
           [(Sample.text, DOWNSTREAM); (Sample.audio, DOWNSTREAM)]
           (TalkingAnimation.__init__ tt)).
  - reflexivity.
  - intros p [<- | []]. split; reflexivity.
  - reflexivity.
  - intros p [<- | [<- | []]]; reflexivity.
Defined.

Lemma stop_then_audio_restarts_witness :
  Delivery.emitted Sample.super_process_frame Sample.globals
    [(TTSStoppedFrame, DOWNSTREAM); (Sample.audio, DOWNSTREAM)]
    (TalkingAnimation.mk tt true [])
  = [(ImageRaw (quiet_frame Sample.globals), DOWNSTREAM);
     (TTSStoppedFrame, DOWNSTREAM);
     (talking_frame Sample.globals, DOWNSTREAM);
     (Sample.audio, DOWNSTREAM)].
Proof.
  exact (@stop_then_audio_restarts unit Sample.super_process_frame
           Sample.globals TTSStoppedFrame DOWNSTREAM Sample.audio DOWNSTREAM
           (TalkingAnimation.mk tt true []) eq_refl eq_refl).
Defined.

Lemma module_init_fails_only_on_a_file_witness :
  exists k,
    In k (range 1 26)
    /\ Loader.frame_of_file Sample.script_dir Demo.Image_open_truncated k
       = Raise (Exception "OSError" "image file is truncated").
Proof.
  exact (proj2 (@module_init_fails_only_on_a_file Sample.script_dir
                  Demo.Image_open_truncated)
           (Exception "OSError" "image file is truncated")
           (snd (Loader.module_init Sample.script_dir
                   Demo.Image_open_truncated Loader.initial))
           eq_refl).
Defined.

Lemma quiet_frame_is_first_asset_witness :
  Loader.frame_of_file Sample.script_dir Sample.Image_open 1
  = Ok (quiet_frame Sample.globals).
Proof.
  assert (H : Loader.module_init Sample.script_dir Sample.Image_open
                Loader.initial = (Ok Sample.globals, snd Sample.loaded))
    by (vm_compute; reflexivity).
  exact (proj1 (@quiet_frame_is_first_asset Sample.script_dir
                  Sample.Image_open Sample.globals (snd Sample.loaded) H)).
Defined.

Lemma full_path_injective_witness : 7 = 7.
Proof.
  exact (@full_path_injective Sample.script_dir 7 7 eq_refl).
Defined.

Lemma handler_without_id_witness :
  Handler.on_first_participant_joined Demo.all_return "Be brief."
    [("info", "{}")]%string []
  = (Raise (Exception "KeyError" "id"), []).
Proof.
  apply handler_without_id.
  intros v [Heq | []]. discriminate Heq.
Defined.

Lemma handler_with_id_witness :
  Handler.on_first_participant_joined Demo.capture_fails "Be brief."
    Demo.participant []
  = (Raise (Exception "RuntimeError" "not joined"),
     [Handler.capture_participant_transcription "a1b2"]).
Proof.
  exact (@handler_with_id Demo.capture_fails "Be brief." Demo.participant
           "a1b2" eq_refl).
Defined.

Lemma missing_asset_prevents_main_witness :
  snd (snd (Script.script tt (Ok tt) Sample.script_dir
              Sample.Image_open_missing (Ok ("https://example.daily.co/room",
                                            "token")%string)
              Sample.environ Sample.all_return))
  = [].
Proof.
  refine (proj1 (@missing_asset_prevents_main unit tt (Ok tt)
                   Sample.script_dir Sample.Image_open_missing
                   (Ok ("https://example.daily.co/room", "token")%string)
                   Sample.environ Sample.all_return 3
                   (Exception "FileNotFoundError"
                      "/srv/bot/assets/robot03.png") _ eq_refl)).
  right. right. left. reflexivity.
Defined.

Lemma queued_frame_is_first_asset_witness :
  exists img,
    Loader.frame_of_file Sample.script_dir Sample.Image_open 1 = Ok img
    /\ ImageRaw Sample.keyframe = ImageRaw img.
Proof.
  apply (@queued_frame_is_first_asset unit tt (Ok tt) Sample.script_dir
           Sample.Image_open
           (Ok ("https://example.daily.co/room", "token")%string)
           Sample.environ Sample.all_return (ImageRaw Sample.keyframe)).
  vm_compute. do 14 right. left. reflexivity.
Defined.
